(** * LanScope: the scan engine of [src/webscanner/src/app/page.tsx]

    A shallow embedding of the address-range expansion, the port-list
    parser, the probe classifier, the worker pool of [handleScan], the
    cancel handler and the CSV export, followed by the properties of the
    specification that they satisfy (or fail).

    Conventions of the model.
    - A JavaScript string is a [string]: a sequence of code units below 256
      (one [ascii] per code unit).  Code units from 256 on do not occur in
      the model.
    - A JavaScript number that the program only uses as an integer is a
      [Z].  Integers are exact in a double up to 2^53 in magnitude; where
      the program computes a value the model checks that bound and
      answers [Beyond] past it instead of a rounded value. *)

From Stdlib Require Import ZArith String Ascii List Bool Lia.
From Stdlib Require Import DecimalString QArith Qround.
From Stdlib Require Import Sorted Permutation.
From stdpp Require Import base list sorting.

Import ListNotations.
Local Open Scope Z_scope.

(* ================================================================== *)
(** * Strings *)
(* ================================================================== *)

Module Str.

Notation "s +:+ t" := (String.append s t)
  (at level 60, right associativity).

Definition chars (cs : string) : list ascii := list_ascii_of_string cs.

Definition mem (c : ascii) (cs : string) : bool :=
  existsb (Ascii.eqb c) (chars cs).

Fixpoint all (p : ascii -> bool) (s : string) : bool :=
  match s with
  | EmptyString => true
  | String c r => p c && all p r
  end.

Definition isEmpty (s : string) : bool :=
  match s with EmptyString => true | _ => false end.

(** WhiteSpace and LineTerminator code units below 256: TAB, LF, VT, FF,
    CR, SP and NBSP.  This is the set of [String.prototype.trim] and of
    the regular expression class [\s]. *)
Definition isSpace (c : ascii) : bool :=
  existsb (Ascii.eqb c)
    ["009"; "010"; "011"; "012"; "013"; " "; "160"]%char.

Fixpoint trimStart (s : string) : string :=
  match s with
  | EmptyString => EmptyString
  | String c r => if isSpace c then trimStart r else s
  end.

Fixpoint trimEnd (s : string) : string :=
  match s with
  | EmptyString => EmptyString
  | String c r =>
      let r' := trimEnd r in
      if isSpace c && isEmpty r' then EmptyString else String c r'
  end.

(** [String.prototype.trim] *)
Definition trim (s : string) : string := trimEnd (trimStart s).

(** [s.split(sep)] for a one-character separator: always at least one
    piece, one more piece than there are separators. *)
Fixpoint split (sep : ascii) (s : string) : list string :=
  match s with
  | EmptyString => [EmptyString]
  | String c r =>
      if Ascii.eqb c sep then EmptyString :: split sep r
      else match split sep r with
           | h :: t => String c h :: t
           | [] => [String c EmptyString]
           end
  end.

(** [pieces.join(sep)] on an array of strings. *)
Fixpoint join (sep : string) (l : list string) : string :=
  match l with
  | [] => EmptyString
  | [x] => x
  | x :: r => x +:+ sep +:+ join sep r
  end.

(** [s.split(/[,\s]+/)]: the pieces between maximal runs of separator
    characters.  A run at the very start or the very end leaves an empty
    piece there, and the empty string splits to one empty piece.
    [inRun] tells that the previous character was a separator. *)
Fixpoint splitRuns (isSep : ascii -> bool) (inRun : bool) (s : string)
  : list string :=
  match s with
  | EmptyString => [EmptyString]
  | String c r =>
      if isSep c then
        if inRun then splitRuns isSep true r
        else EmptyString :: splitRuns isSep true r
      else match splitRuns isSep false r with
           | h :: t => String c h :: t
           | [] => [String c EmptyString]
           end
  end.

(** [toUpperCase] on the letters a-z; the program applies it to the
    protocol and status names only. *)
Definition upperChar (c : ascii) : ascii :=
  let n := nat_of_ascii c in
  if ((97 <=? n) && (n <=? 122))%nat then ascii_of_nat (n - 32) else c.

(** [toLowerCase] on a code unit below 256: the letters A-Z and the
    accented capitals 192-222 (but the multiplication sign, 215) move up
    by 32. *)
Definition lowerChar (c : ascii) : ascii :=
  let n := nat_of_ascii c in
  if ((65 <=? n) && (n <=? 90))%nat
     || ((192 <=? n) && (n <=? 222) && negb (n =? 215))%nat
  then ascii_of_nat (n + 32) else c.

Fixpoint mapChars (f : ascii -> ascii) (s : string) : string :=
  match s with
  | EmptyString => EmptyString
  | String c r => String (f c) (mapChars f r)
  end.

Definition toUpperCase : string -> string := mapChars upperChar.
Definition toLowerCase : string -> string := mapChars lowerChar.

(** [s.includes(needle)] *)
Fixpoint includes (needle s : string) : bool :=
  String.prefix needle s ||
  match s with
  | EmptyString => false
  | String _ r => includes needle r
  end.

(** [s.replace(/[\r\n]+/g, " ")]: every maximal run of CR and LF
    becomes one space. *)
Definition isLineBreak (c : ascii) : bool :=
  Ascii.eqb c "013"%char || Ascii.eqb c "010"%char.

Fixpoint collapseLineBreaks (inRun : bool) (s : string) : string :=
  match s with
  | EmptyString => EmptyString
  | String c r =>
      if isLineBreak c then
        if inRun then collapseLineBreaks true r
        else String " "%char (collapseLineBreaks true r)
      else String c (collapseLineBreaks false r)
  end.

End Str.

Import Str.

(* ================================================================== *)
(** * Numbers *)
(* ================================================================== *)

(** The number values the string conversions of the program yield. *)
Inductive number : Type :=
| NaN
| Num (z : Z).

Definition isDigit (c : ascii) : bool :=
  let n := nat_of_ascii c in ((48 <=? n) && (n <=? 57))%nat.

Definition digitVal (c : ascii) : Z := Z.of_nat (nat_of_ascii c) - 48.

Fixpoint digitsValFrom (acc : Z) (s : string) : Z :=
  match s with
  | EmptyString => acc
  | String c r => digitsValFrom (10 * acc + digitVal c) r
  end.

(** The value of a string of decimal digits. *)
Definition digitsVal (s : string) : Z := digitsValFrom 0 s.

(** The longest prefix of decimal digits. *)
Fixpoint digitPrefix (s : string) : string :=
  match s with
  | EmptyString => EmptyString
  | String c r => if isDigit c then String c (digitPrefix r) else EmptyString
  end.

(** An optional leading sign: [(negative, rest)]. *)
Definition stripSign (s : string) : bool * string :=
  match s with
  | String "-"%char r => (true, r)
  | String "+"%char r => (false, r)
  | _ => (false, s)
  end.

Definition signed (neg : bool) (z : Z) : Z := if neg then - z else z.

Definition exactBound : Z := 2 ^ 53.

(** An integer is kept when a double holds it exactly. *)
Definition exact (z : Z) : option Z :=
  if Z.abs z <=? exactBound then Some z else None.

(** [Number.prototype.toString] on an integer below 10^21 in magnitude:
    its decimal digits, with a minus sign when negative. *)
Definition toString (z : Z) : string :=
  NilZero.string_of_int (Z.to_int z).

Definition hasRadixPrefix (s : string) : bool :=
  match s with
  | String "0"%char (String c _) => mem c "xXoObB"
  | _ => false
  end.

(** [Number(s)] on a string (StringToNumber).  Modelled: the empty or blank
    string (0), an optionally signed string of decimal digits, and every
    string that is no numeric literal (NaN).  [None] stands for the
    literals outside the integer model, about which it says nothing:
    radix prefixes, [Infinity], and anything written only with the
    characters of a decimal literal with a fraction or an exponent.  The
    sign of a zero is not kept; the program never observes it. *)
Definition Number (s : string) : option number :=
  let t := trim s in
  if isEmpty t then Some (Num 0)
  else if hasRadixPrefix t then None
  else
    let (neg, u) := stripSign t in
    if isEmpty u then Some NaN
    else if Str.all isDigit u then
      option_map Num (exact (signed neg (digitsVal u)))
    else if String.eqb u "Infinity"
            || Str.all (fun c => mem c "0123456789.eE+-") u then None
    else Some NaN.

(** [Number.parseInt(s, 10)]: leading white space is skipped, then an
    optional sign, then the longest run of decimal digits; no digit gives
    NaN.  The value is the mathematical integer: the program only compares
    it with 0 and 65535, and the double nearest to an integer compares
    with these two the same way as the integer itself. *)
Definition parseInt10 (s : string) : number :=
  let (neg, u) := stripSign (trimStart s) in
  let ds := digitPrefix u in
  if isEmpty ds then NaN else Num (signed neg (digitsVal ds)).

(* ================================================================== *)
(** * Outcomes of the validation code *)
(* ================================================================== *)

(** The exceptions of the pre-flight code, named as in the specification.
    The source throws [Error] objects with these messages (accents
    dropped here):
    - [InvalidAddressFormat]: "IP invalido" ([ipToNumber]);
    - [RangeInverted]: "O IP final deve ser maior ou igual ao inicial.";
    - [RangeTooLarge]: "Limite maximo de 2048 enderecos por varredura
      excedido.";
    - [NoPortsSpecified]: "Informe ao menos uma porta para varredura.";
    - [NoTargetsResolved]: "Nenhum IP encontrado dentro do intervalo.";
    - [InvalidArrayLength]: the RangeError of [new Array(n)] for a
      negative [n]. *)
Inductive exn : Type :=
| InvalidAddressFormat
| RangeInverted
| RangeTooLarge
| NoPortsSpecified
| NoTargetsResolved
| InvalidArrayLength.

(** A computation returns, throws, or leaves the modelled fragment of
    JavaScript numbers ([Beyond]: the model says nothing). *)
Inductive result (A : Type) : Type :=
| Ok (a : A)
| Throw (e : exn)
| Beyond.

Arguments Ok {A} a.
Arguments Throw {A} e.
Arguments Beyond {A}.

Definition bind {A B} (r : result A) (k : A -> result B) : result B :=
  match r with
  | Ok a => k a
  | Throw e => Throw e
  | Beyond => Beyond
  end.

Notation "'call' x <- r 'in' k" := (bind r (fun x => k))
  (at level 10, x name, r at level 100, k at level 200).

Definition ofExact (o : option Z) : result Z :=
  match o with Some z => Ok z | None => Beyond end.

(* ================================================================== *)
(** * Addresses *)
(* ================================================================== *)

Definition MAX_TARGETS : Z := 2048.

Definition isNaN (n : option number) : bool :=
  match n with Some NaN => true | _ => false end.

(** [ipToNumber]: the pieces between dots, each through [Number]; an
    exception unless there are four of them and none is NaN; then the
    base-256 value of the four numbers, whatever their size. *)
Definition ipToNumber (ip : string) : result Z :=
  let parts := map Number (split "."%char (trim ip)) in
  if negb (Nat.eqb (length parts) 4) || existsb isNaN parts
  then Throw InvalidAddressFormat
  else
    match parts with
    | [Some (Num p0); Some (Num p1); Some (Num p2); Some (Num p3)] =>
        call s1 <- ofExact (exact (p0 * 256 ^ 3 + p1 * 256 ^ 2)) in
        call s2 <- ofExact (exact (s1 + p2 * 256)) in
        ofExact (exact (s2 + p3))
    | _ => Beyond
    end.

(** [numberToIp] on an integer.  [Math.floor(value / 256 ** k)] is the
    floor quotient, [%] is the remainder that takes the sign of the
    dividend. *)
Definition numberToIp (value : Z) : string :=
  let a := Z.rem (value / 256 ^ 3) 256 in
  let b := Z.rem (value / 256 ^ 2) 256 in
  let c := Z.rem (value / 256) 256 in
  let d := Z.rem value 256 in
  join "." (map toString [a; b; c; d]).

(** [new Array(total).fill(0).map((_, index) => f(index))] *)
Definition arrayInit {A} (total : Z) (f : Z -> A) : list A :=
  map (fun i => f (Z.of_nat i)) (seq 0 (Z.to_nat total)).

Definition buildTargetList (start end_ : string) : result (list string) :=
  call startValue <- ipToNumber start in
  call endValue <- ipToNumber end_ in
  if endValue <? startValue then Throw RangeInverted
  else
    let total := endValue - startValue + 1 in
    if total >? MAX_TARGETS then Throw RangeTooLarge
    else Ok (arrayInit total (fun index => numberToIp (startValue + index))).

(* ================================================================== *)
(** * Ports *)
(* ================================================================== *)

Inductive ProtocolHint : Type := http | https.

Definition protocolForPort (port : Z) : ProtocolHint :=
  if (port =? 443) || (port =? 8443) || (port =? 9443) then https else http.

(** A [Set<number>] in insertion order. *)
Definition setAdd (x : Z) (set : list Z) : list Z :=
  if existsb (Z.eqb x) set then set else set ++ [x].

Definition isPortSeparator (c : ascii) : bool :=
  Ascii.eqb c ","%char || isSpace c.

(** The body of the [forEach] of [parsePorts]. *)
Definition addPort (set : list Z) (chunk : string) : list Z :=
  match parseInt10 chunk with
  | Num port => if (port >? 0) && (port <=? 65535) then setAdd port set else set
  | NaN => set
  end.

Definition portChunks (value : string) : list string :=
  List.filter (fun chunk => negb (isEmpty chunk))
    (map trim (splitRuns isPortSeparator false value)).

(** [Array.from(set).sort((a, b) => a - b)]: the ascending order of the
    (distinct) members. *)
Definition sortAscending (l : list Z) : list Z := merge_sort Z.le l.

Definition parsePorts (value : string) : list Z :=
  sortAscending (fold_left addPort (portChunks value) []).

(* ================================================================== *)
(** * Probes *)
(* ================================================================== *)

Inductive PortStatus : Type := open | closed | timeout | error.

Record PortResult : Type := mkPortResult {
  port : Z;
  protocol : ProtocolHint;
  status : PortStatus;
  latency : option Z;
  errorMessage : option string
}.

Record HostResult : Type := mkHostResult {
  ip : string;
  ports : list PortResult;
  responded : bool
}.

Record ScanProgress : Type := mkProgress {
  current : Z;
  total : Z
}.

Definition statusEqb (a b : PortStatus) : bool :=
  match a, b with
  | open, open | closed, closed | timeout, timeout | error, error => true
  | _, _ => false
  end.

(** What a [catch] clause can receive: a [DOMException]; a [TypeError]
    whose [message] is a string, as every [TypeError] the runtime creates
    has one; a [TypeError] whose [message] is [undefined]
    ([TypeErrorNoMessage]); or a value that is neither a [DOMException]
    nor a [TypeError], of which only the [message] property (when it has
    a non-nullish one) is read.  A [TypeError] with any other [message]
    is outside the model. *)
Inductive thrown : Type :=
| DOMException (name message : string)
| TypeError (message : string)
| TypeErrorNoMessage
| OtherValue (message : option string).

(** [(error as Error)?.message], when it is not nullish. *)
Definition messageOf (e : thrown) : option string :=
  match e with
  | DOMException _ m => Some m
  | TypeError m => Some m
  | TypeErrorNoMessage => None
  | OtherValue m => m
  end.

(** A call returns a value or raises. *)
Inductive attempt (A : Type) : Type :=
| Returned (a : A)
| Raised (e : thrown).

Arguments Returned {A} a.
Arguments Raised {A} e.

(** What the engine raises when [toLowerCase] is read from
    [undefined]: a [TypeError] of its own, with a message in the
    engine's wording. *)
Definition noMessageError : thrown :=
  TypeError "Cannot read properties of undefined (reading 'toLowerCase')".

(** [mapErrorToStatus].  The second test calls
    [error.message.toLowerCase()] on every [TypeError]; with no string
    there the call raises. *)
Definition mapErrorToStatus (e : thrown) : attempt PortStatus :=
  match e with
  | DOMException name _ =>
      Returned (if String.eqb name "AbortError" then timeout else error)
  | TypeError message =>
      Returned (if includes "fetch" (toLowerCase message) then closed else error)
  | TypeErrorNoMessage => Raised noMessageError
  | OtherValue _ => Returned error
  end.

(** How the [fetch] of one probe settles: fulfilled, [elapsed]
    milliseconds after [startedAt], or rejected. *)
Inductive fetchOutcome : Type :=
| Fulfilled (elapsed : Q)
| Rejected (e : thrown).

(** The rejection of a [fetch] whose signal was aborted by
    [controller.abort()]: a [DOMException] named "AbortError".  Its
    message is the browser's and is never read. *)
Definition abortError : thrown :=
  DOMException "AbortError" "signal is aborted without reason".

(** [Math.round]: the nearest integer, halves upwards. *)
Definition round (x : Q) : Z := Qfloor (x + (1 # 2))%Q.

(** [scanPort] from the end of its [await]: the fetch has settled with
    [o], by itself or because its controller was aborted, by the timer
    of the probe or by a cancel (see [step] for both).  The [try] branch
    cannot raise; the [catch] branch has unregistered the controller
    when it calls [mapErrorToStatus], and what that call raises leaves
    [scanPort] as the rejection of its promise. *)
Definition scanPort (ip : string) (port : Z) (o : fetchOutcome)
  : attempt PortResult :=
  let protocol := protocolForPort port in
  match o with
  | Fulfilled elapsed =>
      Returned (mkPortResult port protocol open (Some (round elapsed)) None)
  | Rejected e =>
      match mapErrorToStatus e with
      | Returned status =>
          Returned
            (mkPortResult port protocol status None
               (if statusEqb status error
                then Some (default "Erro desconhecido"%string (messageOf e))
                else None))
      | Raised e' => Raised e'
      end
  end.

Definition isOpen (r : PortResult) : bool := statusEqb (status r) open.
Definition isTimeout (r : PortResult) : bool := statusEqb (status r) timeout.

(** [scanHost] once every probe of the host has returned. *)
Definition scanHost (ip : string) (portResults : list PortResult) : HostResult :=
  let responded := existsb isOpen portResults || forallb isTimeout portResults in
  mkHostResult ip portResults responded.

(** The [failedHost] of the worker's [catch] clause. *)
Definition failedHost (ip : string) (ports : list Z) (e : thrown) : HostResult :=
  mkHostResult ip
    (map (fun port =>
            mkPortResult port (protocolForPort port) error None
              (Some (default "Falha desconhecida"%string (messageOf e))))
         ports)
    false.

(* ================================================================== *)
(** * The scan run *)
(* ================================================================== *)

(** The status line.  [Interrupted] is "Varredura interrompida pelo
    usuario.", [Completed] is "Varredura concluida.", [Failed e] is the
    message of the exception that ended [handleScan]. *)
Inductive message : Type :=
| Interrupted
| Completed
| Failed (e : exn).

(** One probe of the host a worker is scanning: its fetch is in flight
    (and its controller registered), or [scanPort] has returned. *)
Inductive probe : Type :=
| Pending (port : Z)
| Settled (r : PortResult).

(** A worker is suspended at [await scanHost(ip, ports)], or has left its
    loop. *)
Inductive worker : Type :=
| Awaiting (ip : string) (probes : list probe)
| Done.

(** The component state a scan reads and writes, with the variables its
    closures share: the queue, the parsed ports and the workers.
    [orphans] are the probes still in flight of hosts whose [scanHost]
    has already rejected: nobody awaits them, and their controllers stay
    in [controllersRef] until they settle or are aborted. *)
Record state : Type := mkState {
  progress : ScanProgress;
  results : list HostResult;
  statusMessage : option message;
  isScanning : bool;
  cancelRequested : bool;
  queue : list string;
  scanPorts : list Z;
  workers : list worker;
  inFlight : bool;
  orphans : list (string * Z)
}.

Record inputs : Type := mkInputs {
  startIp : string;
  endIp : string;
  portsInput : string;
  concurrency : Z
}.

Definition initial : state :=
  mkState (mkProgress 0 0) [] None false false [] [] [] false [].

Definition isPending (p : probe) : bool :=
  match p with Pending _ => true | Settled _ => false end.

(** All results of a host, when none of its probes is pending. *)
Fixpoint allSettled (ps : list probe) : option (list PortResult) :=
  match ps with
  | [] => Some []
  | Settled r :: rest => option_map (cons r) (allSettled rest)
  | Pending _ :: _ => None
  end.

(** [controller.abort()] on the controller of a probe: a fetch still in
    flight rejects with [abortError] and [scanPort] runs to its end. *)
Definition abortProbe (ip : string) (p : probe) : probe :=
  match p with
  | Pending port =>
      match scanPort ip port (Rejected abortError) with
      | Returned r => Settled r
      | Raised _ => p
      end
  | Settled r => Settled r
  end.

Definition abortWorker (w : worker) : worker :=
  match w with
  | Awaiting ip probes => Awaiting ip (map (abortProbe ip) probes)
  | Done => Done
  end.

(** The probes of a host that are in flight. *)
Definition pendingOf (ip : string) (probes : list probe) : list (string * Z) :=
  flat_map (fun p => match p with
                     | Pending port => [(ip, port)]
                     | Settled _ => []
                     end) probes.

(** [controllersRef.current]: one controller per probe in flight, those
    of the hosts the workers hold and the orphans. *)
Definition controllers (s : state) : list (string * Z) :=
  flat_map (fun w =>
    match w with
    | Awaiting ip probes => pendingOf ip probes
    | Done => []
    end) (workers s) ++ orphans s.

(** [handleCancel]: every registered controller is aborted and the
    registry emptied. *)
Definition handleCancel (s : state) : state :=
  mkState (progress s) (results s) (Some Interrupted) false true
          (queue s) (scanPorts s) (map abortWorker (workers s)) (inFlight s) [].

(** One turn of the worker's [while] loop up to its [await]: the head of
    the queue is taken and all its probes are started. *)
Definition nextTurn (cancel : bool) (queue : list string) (ports : list Z)
  : worker * list string :=
  if negb (Nat.eqb (length queue) 0) && negb cancel then
    match queue with
    | ip :: rest =>
        if isEmpty ip then (Done, rest)
        else (Awaiting ip (map Pending ports), rest)
    | [] => (Done, queue)
    end
  else (Done, queue).

(** [setResults(prev => [...prev, h])], the [finally] clause that counts
    the host, and the next turn of worker [w]. *)
Definition publish (w : nat) (h : HostResult) (s : state) : state :=
  let turn := nextTurn (cancelRequested s) (queue s) (scanPorts s) in
  mkState (mkProgress (current (progress s) + 1) (total (progress s)))
          (results s ++ [h]) (statusMessage s) (isScanning s)
          (cancelRequested s) (snd turn) (scanPorts s)
          (<[w := fst turn]> (workers s)) (inFlight s) (orphans s).

(** Probe [i] of worker [w] has returned [r]. *)
Definition settleProbe (w i : nat) (host : string) (probes : list probe)
  (r : PortResult) (s : state) : state :=
  mkState (progress s) (results s) (statusMessage s) (isScanning s)
          (cancelRequested s) (queue s) (scanPorts s)
          (<[w := Awaiting host (<[i := Settled r]> probes)]> (workers s))
          (inFlight s) (orphans s).

(** The probes [strays] are left in flight with nobody awaiting them. *)
Definition orphan (strays : list (string * Z)) (s : state) : state :=
  mkState (progress s) (results s) (statusMessage s) (isScanning s)
          (cancelRequested s) (queue s) (scanPorts s) (workers s)
          (inFlight s) (orphans s ++ strays).

(** Orphan [k] has settled and unregistered its controller. *)
Definition dropOrphan (k : nat) (s : state) : state :=
  mkState (progress s) (results s) (statusMessage s) (isScanning s)
          (cancelRequested s) (queue s) (scanPorts s) (workers s)
          (inFlight s) (delete k (orphans s)).

(** [setResults([])], the "Limpar resultados" button. *)
Definition clearResults (s : state) : state :=
  mkState (progress s) [] (statusMessage s) (isScanning s)
          (cancelRequested s) (queue s) (scanPorts s) (workers s)
          (inFlight s) (orphans s).

(** [handleScan] after [await Promise.all(workers)]: the completion
    message unless a cancel was requested, then the [finally] clause,
    which aborts what is still registered. *)
Definition finishScan (s : state) : state :=
  mkState (progress s) (results s)
          (if cancelRequested s then statusMessage s else Some Completed)
          false false (queue s) (scanPorts s) (map abortWorker (workers s))
          false [].

Inductive event : Type :=
| Settle (w i : nat) (o : fetchOutcome)
| Deadline (w i : nat)
| Resume (w : nat)
| Fault (w : nat) (e : thrown)
| Stray (k : nat)
| Cancel
| Clear
| Finish.

Definition isDone (w : worker) : bool :=
  match w with Done => true | Awaiting _ _ => false end.

(** The fetch of probe [i] of worker [w] settles with [o], and
    [scanPort] runs to its end.  When it returns, the probe is settled.
    When it raises [e], the [Promise.all] of [scanHost] rejects with [e]
    at once: the worker continues in its [catch] clause with
    [failedHost], and the other probes of the host that are still in
    flight become orphans. *)
Definition settle (w i : nat) (o : fetchOutcome) (s : state) : option state :=
  match workers s !! w with
  | Some (Awaiting ip probes) =>
      match probes !! i with
      | Some (Pending port) =>
          match scanPort ip port o with
          | Returned r => Some (settleProbe w i ip probes r s)
          | Raised e =>
              Some (orphan (pendingOf ip (delete i probes))
                      (publish w (failedHost ip (scanPorts s) e) s))
          end
      | _ => None
      end
  | _ => None
  end.

(** The steps of a run.  [Settle w i o]: the fetch of probe [i] of worker
    [w] settles with [o] (a response or a failure).  [Deadline w i]: the
    timer of that probe fires while its fetch is in flight,
    [controller.abort()] rejects the fetch with [abortError].
    [Resume w]: every probe of worker [w] has returned and the worker
    continues after its [await].  [Fault w e]: [scanHost] rejects with
    [e], whatever the cause (in the source, a probe that raises; see
    [settle]), and the probes of the host still in flight become
    orphans.  [Stray k]: the fetch of orphan [k] settles, its controller
    is unregistered and its result is dropped.  [Cancel]: the cancel
    handler runs.  [Clear]: the button that empties the results, shown
    while there are results, is clicked.  [Finish]: all workers are done
    and [handleScan] continues after [await Promise.all(workers)].
    [None]: the event cannot occur.  A run is followed up to the next
    call of [handleScan]. *)
Definition step (ev : event) (s : state) : option state :=
  match ev with
  | Settle w i o => settle w i o s
  | Deadline w i => settle w i (Rejected abortError) s
  | Resume w =>
      match workers s !! w with
      | Some (Awaiting ip probes) =>
          match allSettled probes with
          | Some portResults => Some (publish w (scanHost ip portResults) s)
          | None => None
          end
      | _ => None
      end
  | Fault w e =>
      match workers s !! w with
      | Some (Awaiting ip probes) =>
          Some (orphan (pendingOf ip probes)
                  (publish w (failedHost ip (scanPorts s) e) s))
      | _ => None
      end
  | Stray k =>
      match orphans s !! k with
      | Some _ => Some (dropOrphan k s)
      | None => None
      end
  | Cancel => Some (handleCancel s)
  | Clear =>
      match results s with
      | [] => None
      | _ :: _ => Some (clearResults s)
      end
  | Finish =>
      if inFlight s && forallb isDone (workers s) then Some (finishScan s)
      else None
  end.

Fixpoint exec (evs : list event) (s : state) : option state :=
  match evs with
  | [] => Some s
  | ev :: rest =>
      match step ev s with
      | Some s' => exec rest s'
      | None => None
      end
  end.

(** The workers of [handleScan] start one after the other, each running
    to its first [await]. *)
Fixpoint launch (n : nat) (cancel : bool) (queue : list string) (ports : list Z)
  : list worker * list string :=
  match n with
  | O => ([], queue)
  | S n' =>
      let (w, rest) := nextTurn cancel queue ports in
      let (ws, rest') := launch n' cancel rest ports in
      (w :: ws, rest')
  end.

(** The end of [handleScan] through its [catch] and [finally] clauses:
    the message of the exception, every registered controller aborted
    and the registry emptied, the flags down. *)
Definition failScan (e : exn) (s : state) : state :=
  mkState (progress s) (results s) (Some (Failed e)) false false
          (queue s) (scanPorts s) (map abortWorker (workers s)) false [].

(** [handleScan] up to [await Promise.all(workers)].  [None]: the
    addresses are outside the modelled numbers.  A scan that starts is
    followed from its own workers: the workers and orphans an earlier
    scan may have left are not carried into its state. *)
Definition handleScan (cfg : inputs) (s : state) : option state :=
  let s0 := mkState (progress s) (results s) None (isScanning s)
              (cancelRequested s) (queue s) (scanPorts s) (workers s) true
              (orphans s) in
  let ports := parsePorts (portsInput cfg) in
  if Nat.eqb (length ports) 0 then Some (failScan NoPortsSpecified s0)
  else
    match buildTargetList (startIp cfg) (endIp cfg) with
    | Beyond => None
    | Throw e => Some (failScan e s0)
    | Ok targets =>
        if Nat.eqb (length targets) 0 then Some (failScan NoTargetsResolved s0)
        else
          let s1 := mkState (mkProgress 0 (Z.of_nat (length targets))) []
                      None true false targets ports [] true [] in
          let n := Z.min (concurrency cfg) (Z.of_nat (length targets)) in
          if n <? 0 then Some (failScan InvalidArrayLength s1)
          else
            let (ws, rest) := launch (Z.to_nat n) false targets ports in
            Some (mkState (progress s1) [] None true false rest ports ws true [])
    end.

(* ================================================================== *)
(** * CSV export *)
(* ================================================================== *)

Definition protocolText (p : ProtocolHint) : string :=
  match p with http => "http" | https => "https" end.

Definition statusText (st : PortStatus) : string :=
  match st with
  | open => "open" | closed => "closed" | timeout => "timeout" | error => "error"
  end.

(** "IP,Porta,Protocolo,Status,Latencia(ms),Mensagem", where the e of
    Latencia carries a circumflex (code unit 234). *)
Definition header : string :=
  "IP,Porta,Protocolo,Status,Lat" +:+ String "234"%char "ncia(ms),Mensagem".

Definition csvLine (host : HostResult) (p : PortResult) : string :=
  join ","
    [ ip host;
      toString (port p);
      toUpperCase (protocolText (protocol p));
      toUpperCase (statusText (status p));
      match latency p with Some l => toString l | None => EmptyString end;
      match errorMessage p with
      | Some m => if isEmpty m then EmptyString else collapseLineBreaks false m
      | None => EmptyString
      end ].

Definition csvLines (results : list HostResult) : list string :=
  flat_map (fun host => map (csvLine host) (ports host)) results.

(** The line feed, and the separator "\n" of the CSV lines. *)
Definition LF : ascii := "010"%char.
Definition newline : string := String LF EmptyString.

(** The text [handleDownload] puts in the blob; nothing is exported when
    there are no results. *)
Definition handleDownload (results : list HostResult) : option string :=
  if Nat.eqb (length results) 0 then None
  else Some (join newline (header :: csvLines results)).

(** The rows of a CSV text: its pieces between line feeds. *)
Definition rows (csv : string) : list string := split LF csv.

(* ================================================================== *)
(** * Predicates of the specification *)
(* ================================================================== *)

Definition isNot (sep c : ascii) : bool := negb (Ascii.eqb c sep).

(** The characters of a rendered integer: decimal digits and the minus
    sign. *)
Definition isNumeral (c : ascii) : bool := isDigit c || Ascii.eqb c "-"%char.

(** Canonical text of an octet: decimal digits of a value up to 255, with
    no leading zero. *)
Definition isCanonicalOctet (s : string) : bool :=
  negb (isEmpty s) && Str.all isDigit s
  && (String.eqb s "0" || negb (String.prefix "0" s))
  && (digitsVal s <=? 255).

(** Canonical dotted-quad text: four canonical octets between dots. *)
Definition isCanonicalAddress (s : string) : bool :=
  (Nat.eqb (length (split "."%char s)) 4)
  && forallb isCanonicalOctet (split "."%char s).

(** An octet component as [ipToNumber] is meant to receive it: decimal
    digits of a value up to 255. *)
Definition isOctetText (s : string) : bool :=
  negb (isEmpty s) && Str.all isDigit s && (digitsVal s <=? 255).

(** A well-formed boundary: four octet components between dots. *)
Definition wellFormed (s : string) : bool :=
  (Nat.eqb (length (split "."%char (trim s))) 4)
  && forallb isOctetText (split "."%char (trim s)).

Definition dotted (a b c d : Z) : string :=
  join "." (map toString [a; b; c; d]).

Definition octetChecks (x : Z) : bool :=
  match Number (toString x) with
  | Some (Num y) => y =? x
  | _ => false
  end && isCanonicalOctet (toString x).

(** The order of addresses by numeric value. *)
Definition addressBefore (x y : string) : Prop :=
  exists vx vy, ipToNumber x = Ok vx /\ ipToNumber y = Ok vy /\ vx < vy.

(** A token that is a base-10 integer: an optional sign and decimal
    digits, nothing else. *)
Definition isDecimalInteger (chunk : string) : bool :=
  let (_, u) := stripSign chunk in negb (isEmpty u) && Str.all isDigit u.

Definition decimalValue (chunk : string) : Z :=
  let (neg, u) := stripSign chunk in signed neg (digitsVal u).

(** The reading of the claim under which only integer tokens are accepted. *)
Definition acceptsOnlyIntegers : Prop :=
  forall value p,
    In p (parsePorts value) ->
    exists chunk,
      In chunk (portChunks value)
      /\ isDecimalInteger chunk = true /\ decimalValue chunk = p.

Definition acceptedAs (chunk : string) (p : Z) : Prop :=
  parseInt10 chunk = Num p /\ 1 <= p <= 65535.

(** What the page shows of the state. *)
Definition observable (s : state)
  : ScanProgress * list HostResult * option message * bool :=
  (progress s, results s, statusMessage s, isScanning s).

(** The reading of the claim under which a cancel with no scan running
    changes nothing that can be observed. *)
Definition cancelIsSilentWhenIdle : Prop :=
  forall s, inFlight s = false -> observable (handleCancel s) = observable s.

(** A small scan that runs to completion: one address, one port, one
    worker; the probe is answered, the worker resumes, the scan ends. *)
Definition smallScan : inputs := mkInputs "10.0.0.1" "10.0.0.1" "80" 1.

Definition smallRun : option state :=
  match handleScan smallScan initial with
  | Some s0 => exec [Settle 0 0 (Fulfilled (5 # 1)); Resume 0; Finish] s0
  | None => None
  end.

(** The small scan at its start: its one probe is in flight. *)
Definition startedSmall : state :=
  mkState (mkProgress 0 1) [] None true false [] [80]
          [Awaiting "10.0.0.1" [Pending 80]] true [].

(** The result of a probe whose fetch was aborted. *)
Definition abortedResult (port : Z) : PortResult :=
  mkPortResult port (protocolForPort port) timeout None None.


(** The invariant of [responded]. *)
Definition respondedOk (h : HostResult) : Prop :=
  responded h = existsb isOpen (ports h) || forallb isTimeout (ports h).

(** The host a worker holds. *)
Definition awaited (w : worker) : list string :=
  match w with Awaiting ip _ => [ip] | Done => [] end.

Definition awaitedIps (ws : list worker) : list string := flat_map awaited ws.

(** A bound on the steps a run has left. *)
Definition probeCost (p : probe) : nat := if isPending p then 1 else 0.

Definition workerCost (w : worker) : nat :=
  match w with
  | Awaiting _ probes => S (list_sum (map probeCost probes))
  | Done => O
  end.

Definition measure (s : state) : nat :=
  ((if inFlight s then 1 else 0)
   + list_sum (map workerCost (workers s))
   + length (queue s) * (2 + length (scanPorts s))
   + length (orphans s))%nat.

Definition isCancel (ev : event) : bool :=
  match ev with Cancel => true | _ => false end.

Definition isClear (ev : event) : bool :=
  match ev with Clear => true | _ => false end.

(** The outcome on which [scanPort] raises. *)
Definition raising (o : fetchOutcome) : bool :=
  match o with Rejected TypeErrorNoMessage => true | _ => false end.

(** The events with which a host scan fails. *)
Definition fails (ev : event) : bool :=
  match ev with
  | Fault _ _ => true
  | Settle _ _ o => raising o
  | _ => false
  end.

(** What a step is to the page: the scan of a host failing, a cancel, a
    click on the clear button, or none of these. *)
Inductive tag : Type := Quiet | Failing | Cancelling | Clearing.

Definition tagOf (ev : event) : tag :=
  match ev with
  | Settle _ _ o => if raising o then Failing else Quiet
  | Fault _ _ => Failing
  | Cancel => Cancelling
  | Clear => Clearing
  | _ => Quiet
  end.

(** The addresses a step takes out of the results. *)
Definition clearedAt (t : tag) (s : state) : list string :=
  match t with Clearing => map ip (results s) | _ => [] end.

(** The addresses of the results that the clear button has removed along
    a run, in the order in which they had been appended. *)
Fixpoint cleared (evs : list event) (s : state) : list string :=
  match evs with
  | [] => []
  | ev :: rest =>
      match step ev s with
      | Some s' => clearedAt (tagOf ev) s ++ cleared rest s'
      | None => []
      end
  end.

Definition allNonEmpty (l : list string) : Prop :=
  Forall (fun t => isEmpty t = false) l.

(** What holds of a run over the addresses [targets] at every step,
    [gone] being the addresses of the results cleared so far: the counter
    is the number of results appended, cleared or not; the queue is a
    tail of the targets, and every address before it is exactly once
    among the cleared results, the results and the workers' hosts; every
    result has its [responded] flag right. *)
Definition runInv (targets gone : list string) (s : state) : Prop :=
  current (progress s) = Z.of_nat (length gone + length (results s))
  /\ total (progress s) = Z.of_nat (length targets)
  /\ (exists k,
        queue s = drop k targets
        /\ Permutation (gone ++ map ip (results s) ++ awaitedIps (workers s))
             (take k targets))
  /\ scanPorts s <> []
  /\ Forall respondedOk (results s)
  /\ (inFlight s = false -> forallb isDone (workers s) = true).

(** What holds besides as long as nobody cancels: there are workers, and
    none has left its loop while addresses are queued. *)
Definition steadyInv (s : state) : Prop :=
  cancelRequested s = false
  /\ workers s <> []
  /\ (queue s = [] \/ Forall (fun w => isDone w = false) (workers s)).

(** The effect of one step on results and counter: none; or one host
    result appended for the host worker [w] held and the counter up by
    one; or, at a click on the clear button, the results emptied and the
    counter left alone. *)
Definition countsOneHost (s s' : state) : Prop :=
  (results s' = results s /\ progress s' = progress s)
  \/ (exists w host probes h,
        workers s !! w = Some (Awaiting host probes)
        /\ ip h = host
        /\ results s' = results s ++ [h]
        /\ progress s' = mkProgress (current (progress s) + 1) (total (progress s)))
  \/ (results s <> [] /\ results s' = [] /\ progress s' = progress s).

(** The detail a failed host shows on every port: the message of the
    error when it has one. *)
Definition failureDetail (e : thrown) : string :=
  match e with
  | DOMException _ m => m
  | TypeError m => m
  | OtherValue (Some m) => m
  | TypeErrorNoMessage | OtherValue None => "Falha desconhecida"
  end.

(** A host result as the worker's fallback builds it. *)
Definition failedWith (e : thrown) (P : list Z) (h : HostResult) : Prop :=
  responded h = false
  /\ map port (ports h) = P
  /\ Forall (fun r => status r = error /\ latency r = None
                      /\ errorMessage r = Some (failureDetail e)) (ports h).

(** The reading of the claim under which every run that is not cancelled
    counts all its targets. *)
Definition everyRunCountsAll : Prop :=
  forall cfg sp s0 evs s,
    handleScan cfg sp = Some s0 -> inFlight s0 = true ->
    existsb isCancel evs = false ->
    exec evs s0 = Some s -> inFlight s = false ->
    current (progress s) = total (progress s).


(** A scan of three addresses and two ports with one worker, in which
    the first probe is rejected with a [TypeError] that has no message. *)
Definition faultyScan : inputs := mkInputs "10.0.0.1" "10.0.0.3" "80,443" 1.

Definition faultyRun : list event := [ Settle 0 0 (Rejected TypeErrorNoMessage) ].

(** A scan over three addresses and two ports with two workers, and a run
    of it to the end: the first host answers on one port and times out on
    the other, the scan of the second host fails, the third host refuses
    both connections. *)
Definition fullScan : inputs := mkInputs "10.0.0.1" "10.0.0.3" "80,443" 2.

Definition fullRun : list event :=
  [ Settle 0 0 (Fulfilled (123 # 10));
    Settle 0 1 (Rejected abortError);
    Resume 0;
    Fault 1 (OtherValue None);
    Settle 0 1 (Rejected (TypeError "Failed to fetch"));
    Settle 0 0 (Rejected (TypeError "Failed to fetch"));
    Resume 0;
    Finish ].

(** The same run with a click on the clear button after the first host:
    the scan ends with three hosts counted and two results. *)
Definition clearedRun : list event :=
  [ Settle 0 0 (Fulfilled (123 # 10));
    Deadline 0 1;
    Resume 0;
    Clear;
    Settle 1 0 (Rejected TypeErrorNoMessage);
    Settle 0 1 (Rejected (TypeError "Failed to fetch"));
    Settle 0 0 (Rejected (TypeError "Failed to fetch"));
    Resume 0;
    Finish ].

(** The data row of a port result, field by field. *)
Definition rowOf (h : HostResult) (p : PortResult) : string :=
  join ","
    [ ip h;
      toString (port p);
      match protocol p with http => "HTTP" | https => "HTTPS" end%string;
      match status p with
      | open => "OPEN" | closed => "CLOSED"
      | timeout => "TIMEOUT" | error => "ERROR"
      end%string;
      match latency p with Some l => toString l | None => EmptyString end;
      match errorMessage p with
      | Some m => collapseLineBreaks false m
      | None => EmptyString
      end ].

Definition lineFree (s : string) : Prop := Str.all (isNot LF) s = true.

(** The reading of the claim under which every sequence, the empty one
    included, is serialized. *)
Definition exportsEverySequence : Prop :=
  forall hosts,
    exists csv,
      handleDownload hosts = Some csv
      /\ rows csv = header :: csvLines hosts.

(** The number of occurrences of a character. *)
Fixpoint countChar (c : ascii) (s : string) : nat :=
  match s with
  | EmptyString => O
  | String x r => ((if Ascii.eqb x c then 1 else 0) + countChar c r)%nat
  end.

Definition digitChars : list ascii :=
  ["0"; "1"; "2"; "3"; "4"; "5"; "6"; "7"; "8"; "9"]%char.

(** The text of a port is a token [parsePorts] reads back. *)
Definition portChecks (p : Z) : bool :=
  let t := toString p in
  negb (isEmpty t)
  && Str.all (fun c => negb (isPortSeparator c)) t
  && match parseInt10 t with Num q => q =? p | NaN => false end.

(** A token of the ports text: not empty, no comma, no white space. *)
Definition isToken (x : string) : Prop :=
  isEmpty x = false /\ Str.all (fun c => negb (isPortSeparator c)) x = true.

(** The integers [a], [a + 1], ..., [n] of them. *)
Fixpoint upFrom (n : nat) (a : Z) : list Z :=
  match n with
  | O => []
  | S n' => a :: upFrom n' (a + 1)
  end.

(** The port a probe is for. *)
Definition probePort (p : probe) : Z :=
  match p with Pending q => q | Settled r => port r end.

(** A port result as [scanPort] and the fallback build it: the protocol
    is the hint of the port, a latency comes with [open] only, a message
    with [error] only. *)
Definition resultShape (r : PortResult) : Prop :=
  protocol r = protocolForPort (port r)
  /\ (latency r <> None <-> status r = open)
  /\ (errorMessage r <> None <-> status r = error).

Definition probeShape (p : probe) : Prop :=
  match p with Pending _ => True | Settled r => resultShape r end.

Definition workerShape (P : list Z) (w : worker) : Prop :=
  match w with
  | Awaiting _ probes => map probePort probes = P /\ Forall probeShape probes
  | Done => True
  end.

Definition hostShape (P : list Z) (h : HostResult) : Prop :=
  map port (ports h) = P /\ Forall resultShape (ports h).

(** Every worker probes the ports of the scan, in their order, and every
    host result lists them in that order. *)
Definition shapeInv (P : list Z) (s : state) : Prop :=
  scanPorts s = P
  /\ Forall (workerShape P) (workers s)
  /\ Forall (hostShape P) (results s).

(** With one worker the cleared results, the results, the worker's host
    and the queue are the targets in their order. *)
Definition orderInv (T gone : list string) (s : state) : Prop :=
  length (workers s) = 1%nat
  /\ gone ++ map ip (results s) ++ awaitedIps (workers s) ++ queue s = T.

(** After a cancel: the flag is up or the scan is over; the queue is
    [q]; [n] hosts are among the cleared results and the results or held
    by workers. *)
Definition cancelInv (q : list string) (n : nat) (gone : list string) (s : state)
  : Prop :=
  (cancelRequested s = true
   \/ (inFlight s = false /\ forallb isDone (workers s) = true))
  /\ queue s = q
  /\ statusMessage s = Some Interrupted
  /\ isScanning s = false
  /\ (length gone + length (results s) + length (awaitedIps (workers s)) = n)%nat.

(** Without a cancel: the scan is running with an empty status line, or
    has ended with the completion message. *)
Definition calmInv (s : state) : Prop :=
  cancelRequested s = false
  /\ ((inFlight s = true /\ isScanning s = true /\ statusMessage s = None)
      \/ (inFlight s = false /\ isScanning s = false
          /\ statusMessage s = Some Completed)).

(** The number of workers [handleScan] launches. *)
Definition workerCount (cfg : inputs) (T : list string) : nat :=
  Z.to_nat (Z.min (concurrency cfg) (Z.of_nat (length T))).

(** The worker that has just taken [host] from the queue. *)
Definition freshWorker (P : list Z) (host : string) : worker :=
  Awaiting host (map Pending P).

(** The kinds of step, each with what it is to the page. *)
Inductive stepKind (s s' : state) : tag -> Prop :=
| IsSettle (w i : nat) (host : string) (probes : list probe) (p : Z)
    (o : fetchOutcome) (r : PortResult) :
    workers s !! w = Some (Awaiting host probes) ->
    probes !! i = Some (Pending p) ->
    scanPort host p o = Returned r ->
    s' = settleProbe w i host probes r s ->
    stepKind s s' Quiet
| IsResume (w : nat) (host : string) (probes : list probe) (rs : list PortResult) :
    workers s !! w = Some (Awaiting host probes) ->
    allSettled probes = Some rs ->
    s' = publish w (scanHost host rs) s ->
    stepKind s s' Quiet
| IsFault (w : nat) (host : string) (probes : list probe) (e : thrown)
    (strays : list (string * Z)) :
    workers s !! w = Some (Awaiting host probes) ->
    (length strays <= list_sum (map probeCost probes))%nat ->
    s' = orphan strays (publish w (failedHost host (scanPorts s) e) s) ->
    stepKind s s' Failing
| IsStray (k : nat) :
    (k < length (orphans s))%nat ->
    s' = dropOrphan k s ->
    stepKind s s' Quiet
| IsFinish :
    inFlight s = true -> forallb isDone (workers s) = true ->
    s' = finishScan s -> stepKind s s' Quiet
| IsCancel : s' = handleCancel s -> stepKind s s' Cancelling
| IsClear : results s <> [] -> s' = clearResults s -> stepKind s s' Clearing.

(** The counts shown above the table ([stats]): hosts analysed, hosts
    with an open port, hosts all of whose ports timed out. *)
Record Stats : Type := mkStats {
  totalHosts : nat;
  responsive : nat;
  timedOut : nat
}.

Definition hasOpen (item : HostResult) : bool := existsb isOpen (ports item).
Definition allTimeout (item : HostResult) : bool := forallb isTimeout (ports item).

Definition stats (results : list HostResult) : Stats :=
  mkStats (length results)
          (length (List.filter hasOpen results))
          (length (List.filter allTimeout results)).

(** The label of a host in the table: "Host ativo", "Sem resposta" or
    "Sem servicos detectados" (with a cedilla, code unit 231). *)
Definition noServices : string :=
  "Sem servi" +:+ String "231"%char "os detectados".

Definition hostStatus (host : HostResult) : string :=
  if existsb isOpen (ports host) then "Host ativo"
  else if forallb isTimeout (ports host) then "Sem resposta"
  else noServices.

(** [registerController]: the controller (an object, told apart by its
    identity, here a number) is pushed on the registry; the function
    returned filters it out of the registry it is given. *)
Definition registerController (controller : nat) (registry : list nat)
  : list nat * (list nat -> list nat) :=
  (registry ++ [controller],
   fun current => List.filter (fun item => negb (Nat.eqb item controller)) current).

(* ================================================================== *)
(** * Properties of the string functions *)
(* ================================================================== *)

Section StringFacts.

Lemma all_append p a b : Str.all p (a +:+ b) = Str.all p a && Str.all p b.
Proof.
  induction a as [|c a IH]; simpl; [reflexivity|].
  rewrite IH. apply andb_assoc.
Qed.

Lemma all_impl (p q : ascii -> bool) s :
  (forall c, p c = true -> q c = true) ->
  Str.all p s = true -> Str.all q s = true.
Proof.
  intros Hpq. induction s as [|c s IH]; simpl; [reflexivity|].
  intros [Hc Hs]%andb_prop. rewrite (Hpq _ Hc), (IH Hs). reflexivity.
Qed.

Lemma all_join p sep l :
  Str.all p sep = true ->
  Forall (fun x => Str.all p x = true) l ->
  Str.all p (join sep l) = true.
Proof.
  intros Hsep. induction 1 as [|x l Hx Hl IH]; [reflexivity|].
  destruct l as [|y l]; [exact Hx|].
  change (join sep (x :: y :: l)) with (x +:+ sep +:+ join sep (y :: l)).
  rewrite !all_append, Hx, Hsep, IH. reflexivity.
Qed.

Lemma split_nonempty sep s : split sep s <> [].
Proof.
  destruct s as [|c s]; simpl; [discriminate|].
  destruct (Ascii.eqb c sep); [discriminate|].
  destruct (split sep s); discriminate.
Qed.

Lemma split_free sep a :
  Str.all (isNot sep) a = true -> split sep a = [a].
Proof.
  induction a as [|c a IH]; simpl; [reflexivity|].
  unfold isNot at 1. intros [Hc Ha]%andb_prop.
  apply negb_true_iff in Hc. rewrite Hc, (IH Ha). reflexivity.
Qed.

Lemma split_piece sep a r :
  Str.all (isNot sep) a = true ->
  split sep (a +:+ String sep r) = a :: split sep r.
Proof.
  induction a as [|c a IH]; simpl.
  - intros _. rewrite Ascii.eqb_refl. reflexivity.
  - unfold isNot at 1. intros [Hc Ha]%andb_prop.
    apply negb_true_iff in Hc. rewrite Hc, (IH Ha). reflexivity.
Qed.

(** Splitting undoes joining when no piece holds the separator. *)
Lemma split_join sep l :
  l <> [] ->
  Forall (fun x => Str.all (isNot sep) x = true) l ->
  split sep (join (String sep EmptyString) l) = l.
Proof.
  intros Hne Hall. induction Hall as [|x l Hx Hl IH]; [congruence|].
  destruct l as [|y l].
  - simpl. apply split_free, Hx.
  - change (join (String sep EmptyString) (x :: y :: l))
      with (x +:+ String sep (join (String sep EmptyString) (y :: l))).
    rewrite (split_piece _ _ _ Hx), IH; [reflexivity|discriminate].
Qed.

Lemma trimEnd_id s :
  Str.all (fun c => negb (isSpace c)) s = true -> trimEnd s = s.
Proof.
  induction s as [|c s IH]; simpl; [reflexivity|].
  intros [Hc Hs]%andb_prop. apply negb_true_iff in Hc.
  rewrite Hc, (IH Hs). reflexivity.
Qed.

Lemma trim_id s :
  Str.all (fun c => negb (isSpace c)) s = true -> trim s = s.
Proof.
  intros H. unfold trim.
  destruct s as [|c s]; [reflexivity|].
  pose proof H as H'. simpl in H'. apply andb_prop in H' as [Hc _].
  apply negb_true_iff in Hc.
  simpl trimStart. rewrite Hc. apply trimEnd_id, H.
Qed.

Lemma collapseLineBreaks_clean inRun s :
  Str.all (fun c => negb (isLineBreak c)) (collapseLineBreaks inRun s) = true.
Proof.
  revert inRun. induction s as [|c s IH]; intros inRun; simpl; [reflexivity|].
  destruct (isLineBreak c) eqn:Hc.
  - destruct inRun; simpl; auto.
  - simpl. rewrite Hc. simpl. auto.
Qed.

End StringFacts.

Lemma string_of_uint_numeral d :
  Str.all isNumeral (NilEmpty.string_of_uint d) = true.
Proof. induction d; simpl; auto. Qed.

Lemma toString_numeral z : Str.all isNumeral (toString z) = true.
Proof.
  unfold toString, NilZero.string_of_int, NilZero.string_of_uint.
  destruct (Z.to_int z) as [d|d].
  - destruct d; try reflexivity; apply (string_of_uint_numeral (_ _)).
  - simpl. destruct d; try reflexivity; apply (string_of_uint_numeral (_ _)).
Qed.

Lemma numeral_not c sep :
  isNumeral sep = false -> isNumeral c = true -> isNot sep c = true.
Proof.
  intros Hsep Hc. unfold isNot. apply negb_true_iff.
  destruct (Ascii.eqb_spec c sep) as [->|]; congruence.
Qed.

Lemma numeral_not_space c : isNumeral c = true -> negb (isSpace c) = true.
Proof.
  destruct c as [[] [] [] [] [] [] [] []]; try discriminate; reflexivity.
Qed.

(* ================================================================== *)
(** * Addresses: rendering and parsing *)
(* ================================================================== *)

Lemma octetChecks_all : forallb octetChecks (map Z.of_nat (seq 0 256)) = true.
Proof. vm_compute. reflexivity. Qed.

Lemma octetChecks_octet x : 0 <= x < 256 -> octetChecks x = true.
Proof.
  intros Hx. pose proof octetChecks_all as Hall.
  rewrite forallb_forall in Hall. apply Hall.
  rewrite <- (Z2Nat.id x) by lia.
  apply in_map, in_seq. lia.
Qed.

Lemma Number_octet x : 0 <= x < 256 -> Number (toString x) = Some (Num x).
Proof.
  intros Hx. pose proof (octetChecks_octet x Hx) as H.
  unfold octetChecks in H. apply andb_prop in H as [H _].
  destruct (Number (toString x)) as [[|y]|]; try discriminate.
  apply Z.eqb_eq in H. subst. reflexivity.
Qed.

Lemma canonical_octet x : 0 <= x < 256 -> isCanonicalOctet (toString x) = true.
Proof.
  intros Hx. pose proof (octetChecks_octet x Hx) as H.
  unfold octetChecks in H. apply andb_prop in H as [_ H]. exact H.
Qed.

Lemma toString_free sep z :
  isNumeral sep = false -> Str.all (isNot sep) (toString z) = true.
Proof.
  intros Hsep. apply (all_impl isNumeral); [|apply toString_numeral].
  intros c. apply numeral_not, Hsep.
Qed.

Lemma dotted_split a b c d :
  split "."%char (dotted a b c d) = map toString [a; b; c; d].
Proof.
  unfold dotted. apply (split_join "."%char); [discriminate|].
  repeat constructor; apply toString_free; reflexivity.
Qed.

Lemma dotted_trim a b c d : trim (dotted a b c d) = dotted a b c d.
Proof.
  apply trim_id, all_join; [reflexivity|].
  repeat constructor;
    (apply (all_impl isNumeral); [apply numeral_not_space|apply toString_numeral]).
Qed.

Lemma exact_small z : Z.abs z <= exactBound -> exact z = Some z.
Proof.
  intros H. unfold exact. destruct (Z.leb_spec (Z.abs z) exactBound); [reflexivity|lia].
Qed.

(** Four octets, rendered and parsed back, give their base-256 value. *)
Lemma ipToNumber_dotted a b c d :
  0 <= a < 256 -> 0 <= b < 256 -> 0 <= c < 256 -> 0 <= d < 256 ->
  ipToNumber (dotted a b c d) = Ok (a * 256 ^ 3 + b * 256 ^ 2 + c * 256 + d).
Proof.
  intros Ha Hb Hc Hd. unfold ipToNumber.
  rewrite dotted_trim, dotted_split. cbn [map].
  rewrite !Number_octet by assumption.
  cbn [length Nat.eqb negb existsb isNaN orb].
  assert (Hbound : exactBound = 9007199254740992) by reflexivity.
  rewrite exact_small by lia. cbn [ofExact bind].
  rewrite exact_small by lia. cbn [ofExact bind].
  rewrite exact_small by lia. reflexivity.
Qed.

(** A 32-bit value is rendered from its four octets. *)
Lemma numberToIp_dotted n :
  0 <= n < 2 ^ 32 ->
  numberToIp n =
    dotted (n / 256 ^ 3) (n / 256 ^ 2 mod 256) (n / 256 mod 256) (n mod 256).
Proof.
  intros Hn. unfold numberToIp, dotted.
  assert (H32 : 2 ^ 32 = 4294967296) by reflexivity.
  assert (H3 : 256 ^ 3 = 16777216) by reflexivity.
  assert (H2 : 256 ^ 2 = 65536) by reflexivity.
  rewrite H3, H2 in *.
  rewrite !Z.rem_mod_nonneg by (Z.div_mod_to_equations; lia).
  rewrite (Z.mod_small (n / 16777216) 256) by (Z.div_mod_to_equations; lia).
  reflexivity.
Qed.

Lemma octets_value n :
  0 <= n < 2 ^ 32 ->
  n / 256 ^ 3 * 256 ^ 3 + n / 256 ^ 2 mod 256 * 256 ^ 2
    + n / 256 mod 256 * 256 + n mod 256 = n.
Proof.
  intros Hn.
  assert (H32 : 2 ^ 32 = 4294967296) by reflexivity.
  assert (H3 : 256 ^ 3 = 16777216) by reflexivity.
  assert (H2 : 256 ^ 2 = 65536) by reflexivity.
  rewrite H3, H2 in *. Z.div_mod_to_equations. lia.
Qed.

Lemma octets_range n :
  0 <= n < 2 ^ 32 ->
  0 <= n / 256 ^ 3 < 256 /\ 0 <= n / 256 ^ 2 mod 256 < 256
  /\ 0 <= n / 256 mod 256 < 256 /\ 0 <= n mod 256 < 256.
Proof.
  intros Hn.
  assert (H32 : 2 ^ 32 = 4294967296) by reflexivity.
  assert (H3 : 256 ^ 3 = 16777216) by reflexivity.
  assert (H2 : 256 ^ 2 = 65536) by reflexivity.
  rewrite H3, H2 in *. Z.div_mod_to_equations. lia.
Qed.

Lemma ipToNumber_numberToIp n :
  0 <= n < 2 ^ 32 -> ipToNumber (numberToIp n) = Ok n.
Proof.
  intros Hn. destruct (octets_range n Hn) as (Ha & Hb & Hc & Hd).
  rewrite numberToIp_dotted, ipToNumber_dotted by assumption.
  f_equal. apply octets_value, Hn.
Qed.

Lemma numberToIp_canonical n :
  0 <= n < 2 ^ 32 -> isCanonicalAddress (numberToIp n) = true.
Proof.
  intros Hn. destruct (octets_range n Hn) as (Ha & Hb & Hc & Hd).
  unfold isCanonicalAddress.
  rewrite numberToIp_dotted, dotted_split by assumption.
  cbn [map length Nat.eqb forallb andb].
  rewrite !canonical_octet by assumption. reflexivity.
Qed.

(** C9.  For every n with 0 <= n < 2^32, parsing the text of n gives n
    back: ipToNumber (numberToIp n) = n; and the text of n has exactly
    four components between dots, each the decimal text of an integer of
    [0, 255]. *)
Theorem numberToIp_roundtrip (n : Z) :
  0 <= n < 2 ^ 32 ->
  ipToNumber (numberToIp n) = Ok n
  /\ exists a b c d,
       split "."%char (numberToIp n) = [toString a; toString b; toString c; toString d]
       /\ map Number (split "."%char (numberToIp n))
          = [Some (Num a); Some (Num b); Some (Num c); Some (Num d)]
       /\ 0 <= a <= 255 /\ 0 <= b <= 255 /\ 0 <= c <= 255 /\ 0 <= d <= 255.
Proof.
  intros Hn. split; [apply ipToNumber_numberToIp, Hn|].
  destruct (octets_range n Hn) as (Ha & Hb & Hc & Hd).
  exists (n / 256 ^ 3), (n / 256 ^ 2 mod 256), (n / 256 mod 256), (n mod 256).
  rewrite numberToIp_dotted, dotted_split by assumption.
  cbn [map]. rewrite !Number_octet by assumption.
  repeat split; try reflexivity; lia.
Qed.

Lemma numberToIp_roundtrip_witness :
  ipToNumber (numberToIp 3232235777) = Ok 3232235777
  /\ exists a b c d,
       split "."%char (numberToIp 3232235777)
       = [toString a; toString b; toString c; toString d]
       /\ map Number (split "."%char (numberToIp 3232235777))
          = [Some (Num a); Some (Num b); Some (Num c); Some (Num d)]
       /\ 0 <= a <= 255 /\ 0 <= b <= 255 /\ 0 <= c <= 255 /\ 0 <= d <= 255.
Proof. apply (numberToIp_roundtrip 3232235777). vm_compute. split; [discriminate|reflexivity]. Defined.

(** C2 (the code at the failing inputs).  [ipToNumber] accepts components
    above 255: "256.0.0.1" and "1.2.3.999" are given a value instead of
    the exception, and the range from "256.0.0.1" to itself expands to the
    single address "0.0.0.1". *)
Theorem ipToNumber_accepts_large_octets :
  ipToNumber "256.0.0.1" = Ok 4294967297
  /\ ipToNumber "1.2.3.999" = Ok 16910055
  /\ buildTargetList "256.0.0.1" "256.0.0.1" = Ok ["0.0.0.1"%string].
Proof. vm_compute. repeat split. Qed.

(* ================================================================== *)
(** * Range expansion *)
(* ================================================================== *)

Lemma digit_facts c :
  isDigit c = true ->
  0 <= digitVal c <= 9 /\ isSpace c = false /\ mem c "xXoObB" = false
  /\ Ascii.eqb c "-"%char = false /\ Ascii.eqb c "+"%char = false.
Proof.
  destruct c as [[] [] [] [] [] [] [] []]; try discriminate;
    intros _; vm_compute; repeat split; discriminate.
Qed.

Lemma digitsValFrom_bounds acc s :
  Str.all isDigit s = true -> 0 <= acc -> acc <= digitsValFrom acc s.
Proof.
  revert acc. induction s as [|c s IH]; simpl; intros acc; [lia|].
  intros [Hc Hs]%andb_prop Hacc.
  destruct (digit_facts c Hc) as (Hv & _).
  specialize (IH (10 * acc + digitVal c) Hs). lia.
Qed.

Lemma stripSign_digit s :
  isEmpty s = false -> Str.all isDigit s = true -> stripSign s = (false, s).
Proof.
  destruct s as [|c s]; [discriminate|]. simpl.
  intros _ [Hc _]%andb_prop.
  destruct (digit_facts c Hc) as (_ & _ & _ & Hm & Hp).
  unfold stripSign.
  destruct c as [[] [] [] [] [] [] [] []]; try reflexivity; discriminate.
Qed.

(** [Number] on a string of decimal digits. *)
Lemma Number_digits s :
  isEmpty s = false -> Str.all isDigit s = true ->
  Number s = option_map Num (exact (digitsVal s)).
Proof.
  intros Hne Hd. unfold Number.
  rewrite trim_id.
  2:{ apply (all_impl isDigit); [|exact Hd].
      intros c Hc. destruct (digit_facts c Hc) as (_ & -> & _). reflexivity. }
  rewrite Hne.
  assert (Hrad : hasRadixPrefix s = false).
  { destruct s as [|c [|c' s]]; [reflexivity| |].
    { destruct c as [[] [] [] [] [] [] [] []]; reflexivity. }
    cbn [Str.all] in Hd. apply andb_prop in Hd as [_ [Hc' _]%andb_prop].
    destruct (digit_facts c' Hc') as (_ & _ & Hm & _).
    unfold hasRadixPrefix. rewrite Hm.
    destruct c as [[] [] [] [] [] [] [] []]; reflexivity. }
  rewrite Hrad, (stripSign_digit s Hne Hd), Hne, Hd. reflexivity.
Qed.

Lemma Number_octetText s :
  isOctetText s = true ->
  Number s = Some (Num (digitsVal s)) /\ 0 <= digitsVal s <= 255.
Proof.
  unfold isOctetText. intros [[Hne Hd]%andb_prop Hle]%andb_prop.
  apply negb_true_iff in Hne. apply Z.leb_le in Hle.
  pose proof (digitsValFrom_bounds 0 s Hd (Z.le_refl 0)) as Hlow.
  fold (digitsVal s) in Hlow.
  rewrite (Number_digits s Hne Hd), exact_small; [auto|].
  assert (exactBound = 9007199254740992) by reflexivity. lia.
Qed.

(** A well-formed boundary parses to a 32-bit value. *)
Lemma wellFormed_value s v :
  wellFormed s = true -> ipToNumber s = Ok v -> 0 <= v < 2 ^ 32.
Proof.
  unfold wellFormed, ipToNumber.
  intros [Hlen Hall]%andb_prop.
  destruct (split "."%char (trim s)) as [|a [|b [|c [|d [|e l]]]]];
    try discriminate.
  cbn [forallb] in Hall.
  apply andb_prop in Hall as [Ha Hall]. apply andb_prop in Hall as [Hb Hall].
  apply andb_prop in Hall as [Hc Hall]. apply andb_prop in Hall as [Hd _].
  destruct (Number_octetText a Ha) as [Ea Ra].
  destruct (Number_octetText b Hb) as [Eb Rb].
  destruct (Number_octetText c Hc) as [Ec Rc].
  destruct (Number_octetText d Hd) as [Ed Rd].
  cbn [map]. rewrite Ea, Eb, Ec, Ed.
  cbn [length Nat.eqb negb existsb isNaN orb].
  assert (Hbound : exactBound = 9007199254740992) by reflexivity.
  rewrite exact_small by lia. cbn [ofExact bind].
  rewrite exact_small by lia. cbn [ofExact bind].
  rewrite exact_small by lia. cbn [ofExact].
  intros [= <-]. assert (2 ^ 32 = 4294967296) by reflexivity. lia.
Qed.

Lemma arrayInit_length {A} total (f : Z -> A) :
  length (arrayInit total f) = Z.to_nat total.
Proof. unfold arrayInit. rewrite length_map, length_seq. reflexivity. Qed.

Lemma map_seq_sorted {A} (R : A -> A -> Prop) (f : nat -> A) a n :
  (forall i j, (a <= i < j)%nat -> (j < a + n)%nat -> R (f i) (f j)) ->
  StronglySorted R (map f (seq a n)).
Proof.
  revert a. induction n as [|n IH]; intros a H; simpl; constructor.
  - apply IH. intros i j Hij Hj. apply H; lia.
  - apply List.Forall_forall. intros y [j [<- Hj%in_seq]]%in_map_iff.
    apply H; lia.
Qed.

Lemma map_seq_last {A} (f : nat -> A) a n :
  last (map f (seq a (S n))) = Some (f (a + n)%nat).
Proof.
  revert a. induction n as [|n IH]; intros a.
  - simpl. rewrite Nat.add_0_r. reflexivity.
  - change (seq a (S (S n))) with (a :: seq (S a) (S n)).
    cbn [map]. specialize (IH (S a)).
    destruct (map f (seq (S a) (S n))) as [|y l] eqn:E; [discriminate|].
    cbn [last]. cbn [last] in IH. rewrite IH. f_equal. f_equal. lia.
Qed.

(** C4.  For well-formed boundaries with end >= start and at most 2048
    addresses between them, [buildTargetList] returns end - start + 1
    addresses, strictly ascending by numeric value; the first is the text
    of the start value and the last the text of the end value, and every
    address is canonical dotted-quad text. *)
Theorem buildTargetList_valid (start end_ : string) (sv ev : Z) :
  wellFormed start = true -> wellFormed end_ = true ->
  ipToNumber start = Ok sv -> ipToNumber end_ = Ok ev ->
  sv <= ev -> ev - sv + 1 <= MAX_TARGETS ->
  exists targets,
    buildTargetList start end_ = Ok targets
    /\ Z.of_nat (length targets) = ev - sv + 1
    /\ StronglySorted addressBefore targets
    /\ head targets = Some (numberToIp sv)
    /\ last targets = Some (numberToIp ev)
    /\ ipToNumber (numberToIp sv) = Ok sv
    /\ ipToNumber (numberToIp ev) = Ok ev
    /\ Forall (fun t => isCanonicalAddress t = true) targets.
Proof.
  intros Wfs Wfe Hs He Hle Hcap.
  pose proof (wellFormed_value _ _ Wfs Hs) as Rs.
  pose proof (wellFormed_value _ _ Wfe He) as Re.
  unfold buildTargetList. rewrite Hs, He. cbn [bind].
  destruct (Z.ltb_spec ev sv) as [|_]; [lia|].
  destruct (Z.gtb_spec (ev - sv + 1) MAX_TARGETS) as [|_]; [lia|].
  eexists. split; [reflexivity|].
  assert (Hn : Z.to_nat (ev - sv + 1) = S (Z.to_nat (ev - sv))) by lia.
  split; [rewrite arrayInit_length; lia|].
  unfold arrayInit. rewrite Hn.
  split.
  { apply map_seq_sorted. intros i j Hij Hj.
    exists (sv + Z.of_nat i), (sv + Z.of_nat j).
    rewrite !ipToNumber_numberToIp by lia. repeat split; lia. }
  split; [cbn; rewrite Z.add_0_r; reflexivity|].
  split.
  { rewrite (map_seq_last (fun i => numberToIp (sv + Z.of_nat i))).
    f_equal. f_equal. lia. }
  split; [apply ipToNumber_numberToIp; lia|].
  split; [apply ipToNumber_numberToIp; lia|].
  apply List.Forall_forall. intros t [i [<- Hi%in_seq]]%in_map_iff.
  apply numberToIp_canonical. lia.
Qed.

Lemma buildTargetList_valid_witness :
  exists targets,
    buildTargetList "10.0.0.254" "10.0.1.1" = Ok targets
    /\ Z.of_nat (length targets) = 167772417 - 167772414 + 1
    /\ StronglySorted addressBefore targets
    /\ head targets = Some (numberToIp 167772414)
    /\ last targets = Some (numberToIp 167772417)
    /\ ipToNumber (numberToIp 167772414) = Ok 167772414
    /\ ipToNumber (numberToIp 167772417) = Ok 167772417
    /\ Forall (fun t => isCanonicalAddress t = true) targets.
Proof.
  apply (buildTargetList_valid "10.0.0.254" "10.0.1.1" 167772414 167772417);
    vm_compute; first [reflexivity | discriminate].
Defined.

Example buildTargetList_inverted :
  buildTargetList "10.0.0.5" "10.0.0.1" = Throw RangeInverted.
Proof. vm_compute. reflexivity. Qed.

Example buildTargetList_too_large :
  buildTargetList "0.0.0.0" "0.0.9.0" = Throw RangeTooLarge.
Proof. vm_compute. reflexivity. Qed.

Example ipToNumber_malformed :
  ipToNumber "1.2.3" = Throw InvalidAddressFormat
  /\ ipToNumber "1.2.3.4.5" = Throw InvalidAddressFormat
  /\ ipToNumber "a.b.c.d" = Throw InvalidAddressFormat
  /\ ipToNumber " 192.168.0.1 " = Ok 3232235521.
Proof. vm_compute. repeat split. Qed.

(* ================================================================== *)
(** * Port parsing *)
(* ================================================================== *)

Section PortFacts.

Lemma existsb_eqb_In x (set : list Z) : existsb (Z.eqb x) set = true <-> In x set.
Proof.
  rewrite existsb_exists. split.
  - intros (y & Hy & ->%Z.eqb_eq). exact Hy.
  - intros H. exists x. split; [exact H|apply Z.eqb_refl].
Qed.

Lemma setAdd_In x set p : In p (setAdd x set) <-> In p set \/ p = x.
Proof.
  unfold setAdd. destruct (existsb (Z.eqb x) set) eqn:E.
  - apply existsb_eqb_In in E. split; [auto|]. intros [H| ->]; assumption.
  - rewrite in_app_iff. simpl. intuition congruence.
Qed.

Lemma setAdd_NoDup x set : List.NoDup set -> List.NoDup (setAdd x set).
Proof.
  intros Hnd. unfold setAdd. destruct (existsb (Z.eqb x) set) eqn:E; [exact Hnd|].
  assert (Hx : ~ In x set).
  { intros H. apply existsb_eqb_In in H. congruence. }
  apply NoDup_rev in Hnd. rewrite <- (rev_involutive (set ++ [x])).
  apply NoDup_rev. rewrite rev_app_distr. simpl.
  constructor; [rewrite <- in_rev; exact Hx|exact Hnd].
Qed.

Lemma addPort_In set chunk p :
  In p (addPort set chunk) <-> In p set \/ acceptedAs chunk p.
Proof.
  unfold addPort, acceptedAs.
  destruct (parseInt10 chunk) as [|q].
  { split; [auto|]. intros [H|[H _]]; [exact H|discriminate]. }
  destruct ((q >? 0) && (q <=? 65535)) eqn:E.
  - apply andb_prop in E as [E1 E2].
    rewrite Z.gtb_ltb in E1. apply Z.ltb_lt in E1. apply Z.leb_le in E2.
    rewrite setAdd_In. split.
    + intros [H| ->]; [left; exact H|right; split; [reflexivity|lia]].
    + intros [H|[[= ->] _]]; auto.
  - split; [auto|]. intros [H|[[= ->] Hr]]; [exact H|exfalso].
    rewrite Z.gtb_ltb in E.
    apply andb_false_iff in E as [E|E];
      [apply Z.ltb_ge in E|apply Z.leb_gt in E]; lia.
Qed.

Lemma addPort_NoDup set chunk : List.NoDup set -> List.NoDup (addPort set chunk).
Proof.
  intros H. unfold addPort. destruct (parseInt10 chunk); [exact H|].
  destruct (_ && _); [apply setAdd_NoDup|]; exact H.
Qed.

Lemma fold_addPort_In chunks set p :
  In p (fold_left addPort chunks set)
  <-> In p set \/ exists chunk, In chunk chunks /\ acceptedAs chunk p.
Proof.
  revert set. induction chunks as [|c chunks IH]; intros set; simpl.
  - split; [auto|]. intros [H|(c & [] & _)]. exact H.
  - rewrite IH, addPort_In. split.
    + intros [[H|H]|(c' & H1 & H2)]; eauto.
    + intros [H|(c' & [->|H1] & H2)]; eauto.
Qed.

Lemma fold_addPort_NoDup chunks set :
  List.NoDup set -> List.NoDup (fold_left addPort chunks set).
Proof.
  revert set. induction chunks as [|c chunks IH]; intros set H; simpl;
    [exact H|]. apply IH, addPort_NoDup, H.
Qed.

Lemma sorted_distinct (l : list Z) :
  StronglySorted Z.le l -> List.NoDup l -> StronglySorted Z.lt l.
Proof.
  induction 1 as [|x l Hs IH Hx]; intros Hnd; constructor.
  - apply IH. inversion Hnd; assumption.
  - inversion Hnd as [|y l' Hnot Hnd']; subst.
    rewrite List.Forall_forall in Hx |- *. intros y Hy.
    specialize (Hx y Hy).
    assert (x <> y) by (intros ->; exact (Hnot Hy)). lia.
Qed.

Lemma sortAscending_perm l : Permutation (sortAscending l) l.
Proof. apply merge_sort_Permutation. Qed.

Lemma parseInt10_decimal chunk :
  isDecimalInteger chunk = true ->
  parseInt10 chunk = Num (decimalValue chunk).
Proof.
  unfold isDecimalInteger, decimalValue, parseInt10.
  assert (Hpre : forall u, Str.all isDigit u = true -> digitPrefix u = u).
  { induction u as [|c u IH]; simpl; [reflexivity|].
    intros [-> Hu]%andb_prop. rewrite (IH Hu). reflexivity. }
  assert (Htrim : forall c s, isSpace c = false ->
                              trimStart (String c s) = String c s).
  { intros c s Hc. simpl. rewrite Hc. reflexivity. }
  destruct chunk as [|c s]; [discriminate|].
  destruct (Ascii.eqb_spec c "-"%char) as [->|Hm];
    [|destruct (Ascii.eqb_spec c "+"%char) as [->|Hp]].
  - rewrite Htrim by reflexivity. cbn [stripSign].
    intros [Hne Hd]%andb_prop. rewrite (Hpre _ Hd).
    apply negb_true_iff in Hne. rewrite Hne. reflexivity.
  - rewrite Htrim by reflexivity. cbn [stripSign].
    intros [Hne Hd]%andb_prop. rewrite (Hpre _ Hd).
    apply negb_true_iff in Hne. rewrite Hne. reflexivity.
  - assert (Hs : stripSign (String c s) = (false, String c s)).
    { unfold stripSign.
      destruct c as [[] [] [] [] [] [] [] []]; try reflexivity; congruence. }
    rewrite Hs. intros [_ Hd]%andb_prop.
    pose proof Hd as Hd'. cbn [Str.all] in Hd'.
    apply andb_prop in Hd' as [Hc _].
    destruct (digit_facts c Hc) as (_ & Hsp & _).
    rewrite Htrim by exact Hsp. rewrite Hs, (Hpre _ Hd). reflexivity.
Qed.

End PortFacts.

(** C3 (counterexample).  The token "80abc" of the input "80abc" is no
    base-10 integer, yet [parsePorts] returns port 80 for it. *)
Lemma parsePorts_prefix_counterexample :
  parsePorts "80abc" = [80]
  /\ portChunks "80abc" = ["80abc"%string]
  /\ isDecimalInteger "80abc" = false
  /\ ~ acceptsOnlyIntegers.
Proof.
  repeat split; try (vm_compute; reflexivity).
  intros H. destruct (H "80abc"%string 80) as (chunk & Hin & Hint & _).
  - vm_compute. auto.
  - vm_compute in Hin. destruct Hin as [<-|[]]. vm_compute in Hint. discriminate.
Qed.

(** C3 (amended).  For every input, a port is in the result exactly when
    [parseInt] reads it off the start of some token (optional sign, then
    the longest run of decimal digits, whatever follows) and it lies in
    [1, 65535]; in particular every token that is a base-10 integer of
    that range is accepted, tokens with no leading digits or a value out
    of range add nothing and raise nothing, the result is strictly
    ascending (hence free of duplicates), and
    parse("80, 443 ,, abc, 99999, 22") = [22, 80, 443]. *)
Theorem parsePorts_spec (value : string) :
  (forall p,
      In p (parsePorts value)
      <-> exists chunk,
            In chunk (portChunks value)
            /\ parseInt10 chunk = Num p /\ 1 <= p <= 65535)
  /\ (forall chunk,
        In chunk (portChunks value) ->
        isDecimalInteger chunk = true ->
        (In (decimalValue chunk) (parsePorts value)
         <-> 1 <= decimalValue chunk <= 65535))
  /\ StronglySorted Z.lt (parsePorts value)
  /\ parsePorts "80, 443 ,, abc, 99999, 22" = [22; 80; 443].
Proof.
  assert (Hmem : forall p,
      In p (parsePorts value)
      <-> exists chunk, In chunk (portChunks value) /\ acceptedAs chunk p).
  { intros p. unfold parsePorts. split.
    - intros H. apply (Permutation_in _ (sortAscending_perm _)) in H.
      apply fold_addPort_In in H as [[]|H]. exact H.
    - intros H.
      apply (Permutation_in _ (Permutation_sym (sortAscending_perm _))).
      apply fold_addPort_In. right. exact H. }
  split; [exact Hmem|]. split; [|split].
  - intros chunk Hin Hint. rewrite Hmem. split.
    + intros (c' & _ & _ & Hr). exact Hr.
    + intros Hr. exists chunk. split; [exact Hin|].
      split; [apply parseInt10_decimal, Hint|exact Hr].
  - unfold parsePorts. apply sorted_distinct.
    + apply StronglySorted_merge_sort; apply _.
    + apply (Permutation_NoDup (Permutation_sym (sortAscending_perm _))).
      apply fold_addPort_NoDup. constructor.
  - vm_compute. reflexivity.
Qed.

(* ================================================================== *)
(** * Probes *)
(* ================================================================== *)

Lemma protocolForPort_secure p :
  protocolForPort p = https <-> p = 443 \/ p = 8443 \/ p = 9443.
Proof.
  unfold protocolForPort.
  destruct (Z.eqb_spec p 443), (Z.eqb_spec p 8443), (Z.eqb_spec p 9443);
    cbn; split; auto; try discriminate; lia.
Qed.


Lemma statusEqb_eq a b : statusEqb a b = true <-> a = b.
Proof. destruct a, b; cbn; split; congruence. Qed.

Lemma scanPort_abort ip p :
  scanPort ip p (Rejected abortError) = Returned (abortedResult p).
Proof. reflexivity. Qed.

Lemma raising_raises ip p o :
  raising o = true -> scanPort ip p o = Raised noMessageError.
Proof. destruct o as [elapsed|[name m|m| |m]]; cbn; congruence. Qed.

Lemma mapErrorToStatus_returns e :
  raising (Rejected e) = false ->
  exists st, mapErrorToStatus e = Returned st /\ st <> open.
Proof.
  destruct e as [name m|m| |m]; cbn; intros H; try discriminate.
  - eexists. split; [reflexivity|].
    destruct (String.eqb name "AbortError"); discriminate.
  - eexists. split; [reflexivity|].
    destruct (includes "fetch" (toLowerCase m)); discriminate.
  - eexists. split; [reflexivity|discriminate].
Qed.

Lemma scanPort_returns ip p o :
  raising o = false ->
  exists r, scanPort ip p o = Returned r /\ port r = p /\ resultShape r.
Proof.
  intros H. destruct o as [elapsed|e].
  - eexists. split; [reflexivity|]. split; [reflexivity|].
    unfold resultShape. cbn. repeat split; auto; intros; congruence.
  - destruct (mapErrorToStatus_returns e H) as (st & Hst & Hopen).
    unfold scanPort. rewrite Hst. eexists. split; [reflexivity|].
    split; [reflexivity|]. unfold resultShape. cbn.
    repeat split; auto; try (intros; congruence);
      destruct st; cbn; congruence.
Qed.

Lemma scanPort_returned ip p o r :
  scanPort ip p o = Returned r -> port r = p /\ resultShape r.
Proof.
  intros H. destruct (raising o) eqn:E.
  - rewrite (raising_raises ip p o E) in H. discriminate.
  - destruct (scanPort_returns ip p o E) as (r' & Hr & H1 & H2).
    rewrite Hr in H. injection H as <-. auto.
Qed.


Lemma step_deadline s w i ip probes p :
  workers s !! w = Some (Awaiting ip probes) ->
  probes !! i = Some (Pending p) ->
  step (Deadline w i) s = Some (settleProbe w i ip probes (abortedResult p) s).
Proof.
  intros Hw Hi. cbn [step]. unfold settle. rewrite Hw, Hi, scanPort_abort.
  reflexivity.
Qed.






Lemma abortProbe_idem ip p : abortProbe ip (abortProbe ip p) = abortProbe ip p.
Proof. destruct p; reflexivity. Qed.

Lemma abortWorker_idem w : abortWorker (abortWorker w) = abortWorker w.
Proof.
  destruct w as [ip probes|]; cbn; [|reflexivity].
  f_equal. rewrite map_map. apply map_ext, abortProbe_idem.
Qed.

Lemma abortWorker_done ws :
  forallb isDone ws = true -> map abortWorker ws = ws.
Proof.
  induction ws as [|[ip probes|] ws IH]; cbn; [reflexivity|discriminate|].
  intros H. rewrite (IH H). reflexivity.
Qed.

Lemma pendingOf_abort ip probes : pendingOf ip (map (abortProbe ip) probes) = [].
Proof. induction probes as [|[port|r] probes IH]; cbn; auto. Qed.

Lemma controllers_aborted ws :
  flat_map (fun w => match w with
                     | Awaiting ip probes => pendingOf ip probes
                     | Done => []
                     end) (map abortWorker ws) = [].
Proof.
  induction ws as [|[ip probes|] ws IH]; cbn; [reflexivity| |exact IH].
  rewrite IH, app_nil_r. apply pendingOf_abort.
Qed.

Lemma controllers_cancel s : controllers (handleCancel s) = [].
Proof.
  unfold controllers. cbn [handleCancel workers orphans].
  rewrite controllers_aborted. reflexivity.
Qed.

(* ================================================================== *)
(** * Cancellation *)
(* ================================================================== *)

(** C7 (counterexample).  After the small scan has run to completion no
    scan is running and the status line reads [Completed]; a cancel then
    replaces it by [Interrupted]. *)
Lemma handleCancel_idle_counterexample :
  (exists s,
      smallRun = Some s
      /\ inFlight s = false
      /\ statusMessage s = Some Completed
      /\ statusMessage (handleCancel s) = Some Interrupted)
  /\ ~ cancelIsSilentWhenIdle.
Proof.
  assert (Hrun : exists s,
      smallRun = Some s /\ inFlight s = false
      /\ statusMessage s = Some Completed
      /\ statusMessage (handleCancel s) = Some Interrupted).
  { eexists. split; [vm_compute; reflexivity|]. repeat split. }
  split; [exact Hrun|].
  destruct Hrun as (s & _ & Hidle & Hbefore & Hafter).
  intros H. specialize (H s Hidle).
  apply (f_equal (fun x => snd (fst x))) in H. cbn [observable fst snd] in H.
  congruence.
Qed.

(** C7 (amended).  [handleCancel] can run in every state and never
    raises; running it a second time changes nothing; it empties the
    controller registry and leaves progress, results, queue and workers'
    hosts alone.  It always sets the status line to [Interrupted] and the
    scanning flag to false, so with no scan running it changes nothing
    observable exactly when the status line already reads [Interrupted];
    and a later scan does not see that it ran. *)
Theorem handleCancel_idempotent (s : state) :
  step Cancel s = Some (handleCancel s)
  /\ handleCancel (handleCancel s) = handleCancel s
  /\ exec [Cancel; Cancel] s = exec [Cancel] s
  /\ controllers (handleCancel s) = []
  /\ progress (handleCancel s) = progress s
  /\ results (handleCancel s) = results s
  /\ queue (handleCancel s) = queue s
  /\ inFlight (handleCancel s) = inFlight s
  /\ statusMessage (handleCancel s) = Some Interrupted
  /\ isScanning (handleCancel s) = false
  /\ (isScanning s = false ->
      (observable (handleCancel s) = observable s
       <-> statusMessage s = Some Interrupted))
  /\ (forallb isDone (workers s) = true ->
      forall cfg, handleScan cfg (handleCancel s) = handleScan cfg s).
Proof.
  assert (Hidem : handleCancel (handleCancel s) = handleCancel s).
  { unfold handleCancel. cbn. f_equal.
    rewrite map_map. apply map_ext, abortWorker_idem. }
  split; [reflexivity|]. split; [exact Hidem|].
  split; [cbn; rewrite Hidem; reflexivity|].
  split; [apply controllers_cancel|].
  repeat (split; [reflexivity|]).
  split.
  - intros Hscan. unfold observable. cbn. rewrite Hscan. split.
    + intros [= <-]. reflexivity.
    + intros ->. reflexivity.
  - intros Hdone cfg. unfold handleScan, handleCancel, failScan.
    cbn [progress results statusMessage isScanning cancelRequested queue
         scanPorts workers inFlight orphans].
    rewrite !(abortWorker_done _ Hdone). reflexivity.
Qed.

Lemma handleCancel_idempotent_witness :
  step Cancel initial = Some (handleCancel initial)
  /\ handleCancel (handleCancel initial) = handleCancel initial
  /\ exec [Cancel; Cancel] initial = exec [Cancel] initial
  /\ controllers (handleCancel initial) = []
  /\ progress (handleCancel initial) = progress initial
  /\ results (handleCancel initial) = results initial
  /\ queue (handleCancel initial) = queue initial
  /\ inFlight (handleCancel initial) = inFlight initial
  /\ statusMessage (handleCancel initial) = Some Interrupted
  /\ isScanning (handleCancel initial) = false
  /\ (isScanning initial = false ->
      (observable (handleCancel initial) = observable initial
       <-> statusMessage initial = Some Interrupted))
  /\ (forallb isDone (workers initial) = true ->
      forall cfg, handleScan cfg (handleCancel initial) = handleScan cfg initial).
Proof. exact (handleCancel_idempotent initial). Defined.



(* ================================================================== *)
(** * The scan run: invariants *)
(* ================================================================== *)

Ltac fields :=
  unfold settleProbe, publish, orphan, dropOrphan, clearResults, handleCancel,
    finishScan;
  cbn [progress results statusMessage isScanning cancelRequested queue
       scanPorts workers inFlight orphans current total].

Section RunInvariants.

Lemma insert_swap {A} (ws : list A) (w : nat) (x y : A) :
  ws !! w = Some x -> Permutation (x :: <[w := y]> ws) (y :: ws).
Proof.
  revert w. induction ws as [|a ws IH]; intros [|w]; cbn; try discriminate.
  - intros [= ->]. apply perm_swap.
  - intros H. etransitivity; [apply perm_swap|].
    etransitivity; [apply perm_skip, (IH _ H)|]. apply perm_swap.
Qed.

Lemma awaitedIps_insert ws w x y :
  ws !! w = Some x ->
  Permutation (awaited x ++ awaitedIps (<[w := y]> ws)) (awaited y ++ awaitedIps ws).
Proof.
  intros H. exact (Permutation_flat_map awaited (insert_swap ws w x y H)).
Qed.

Lemma awaitedIps_abort ws : awaitedIps (map abortWorker ws) = awaitedIps ws.
Proof.
  unfold awaitedIps. induction ws as [|[host probes|] ws IH]; cbn; congruence.
Qed.

Lemma awaitedIps_done ws : forallb isDone ws = true -> awaitedIps ws = [].
Proof.
  unfold awaitedIps. induction ws as [|[host probes|] ws IH]; cbn;
    [reflexivity|discriminate|exact IH].
Qed.

Lemma isDone_abort ws : forallb isDone (map abortWorker ws) = forallb isDone ws.
Proof. induction ws as [|[host probes|] ws IH]; cbn; congruence. Qed.

Lemma awaitedIps_same_host ws w host probes probes' :
  ws !! w = Some (Awaiting host probes) ->
  awaitedIps (<[w := Awaiting host probes']> ws) = awaitedIps ws.
Proof.
  unfold awaitedIps. revert w.
  induction ws as [|x ws IH]; intros [|w]; cbn; try discriminate.
  - intros [= ->]. reflexivity.
  - intros H. f_equal. apply IH, H.
Qed.

Lemma awaitedIps_length ws : (length (awaitedIps ws) <= length ws)%nat.
Proof.
  unfold awaitedIps. induction ws as [|[host probes|] ws IH]; cbn; lia.
Qed.

Lemma lookup_not_done ws w host probes :
  ws !! w = Some (Awaiting host probes) -> forallb isDone ws = true -> False.
Proof.
  revert w. induction ws as [|[a b|] ws IH]; intros [|w]; cbn;
    try discriminate; eauto.
Qed.

Lemma insert_nonempty {A} (ws : list A) w y : ws <> [] -> <[w := y]> ws <> [].
Proof. destruct ws, w; cbn; congruence. Qed.

Lemma insert_Forall {A} (Q : A -> Prop) (ws : list A) w y :
  Forall Q ws -> Q y -> Forall Q (<[w := y]> ws).
Proof.
  intros H Hy. revert w. induction H as [|a ws Ha Hws IH]; intros [|w]; cbn;
    constructor; auto.
Qed.

Lemma drop_split {A} (T l1 rest : list A) k :
  drop k T = l1 ++ rest ->
  rest = drop (k + length l1) T /\ take (k + length l1) T = take k T ++ l1.
Proof.
  intros H. split.
  - rewrite <- drop_drop, H, drop_app_length. reflexivity.
  - rewrite <- take_take_drop, H, take_app_length. reflexivity.
Qed.

(** A turn of the loop moves the head of the queue to the worker, or
    moves nothing. *)
Lemma nextTurn_conserves cancel q P :
  allNonEmpty q ->
  awaited (fst (nextTurn cancel q P)) ++ snd (nextTurn cancel q P) = q.
Proof.
  intros Hq. unfold nextTurn.
  destruct q as [|host rest]; cbn; [reflexivity|].
  destruct cancel; cbn; [reflexivity|].
  inversion Hq as [|? ? Hhost _]; subst. rewrite Hhost. reflexivity.
Qed.

Lemma nextTurn_steady q P :
  allNonEmpty q ->
  snd (nextTurn false q P) = [] \/ isDone (fst (nextTurn false q P)) = false.
Proof.
  intros Hq. unfold nextTurn.
  destruct q as [|host rest]; cbn; [left; reflexivity|].
  inversion Hq as [|? ? Hhost _]; subst. rewrite Hhost. right. reflexivity.
Qed.

Lemma nextTurn_cancelled q P : nextTurn true q P = (Done, q).
Proof. unfold nextTurn. rewrite andb_false_r. reflexivity. Qed.

Lemma pendingOf_length host probes :
  length (pendingOf host probes) = list_sum (map probeCost probes).
Proof.
  induction probes as [|[p|r] probes IH]; cbn; [reflexivity| |exact IH].
  f_equal. exact IH.
Qed.

Lemma delete_cost probes i :
  (list_sum (map probeCost (delete i probes)) <= list_sum (map probeCost probes))%nat.
Proof.
  revert i. induction probes as [|x probes IH]; intros [|i]; cbn;
    unfold list_sum in *; try lia.
  apply Nat.add_le_mono_l, IH.
Qed.

Lemma delete_shorter {A} (l : list A) k :
  (k < length l)%nat -> (S (length (delete k l)) = length l)%nat.
Proof.
  revert k. induction l as [|x l IH]; intros [|k]; cbn; try lia.
  intros H. rewrite IH by lia. reflexivity.
Qed.

(** Every step is of one of the kinds, with the tag of its event. *)
Lemma step_kind ev s s' : step ev s = Some s' -> stepKind s s' (tagOf ev).
Proof.
  destruct ev as [w i o|w i|w|w e|k| | |]; cbn [step tagOf].
  - unfold settle.
    destruct (workers s !! w) as [[host probes|]|] eqn:Hw; try discriminate.
    destruct (probes !! i) as [[p|r]|] eqn:Hi; try discriminate.
    destruct (raising o) eqn:Hr.
    + rewrite (raising_raises host p o Hr). intros [= <-].
      eapply IsFault; [exact Hw| |reflexivity].
      rewrite pendingOf_length. apply delete_cost.
    + destruct (scanPort_returns host p o Hr) as (r & Hsp & _). rewrite Hsp.
      intros [= <-]. eapply IsSettle; eauto.
  - unfold settle.
    destruct (workers s !! w) as [[host probes|]|] eqn:Hw; try discriminate.
    destruct (probes !! i) as [[p|r]|] eqn:Hi; try discriminate.
    rewrite scanPort_abort. intros [= <-].
    eapply IsSettle; [exact Hw|exact Hi|apply scanPort_abort|reflexivity].
  - destruct (workers s !! w) as [[host probes|]|] eqn:Hw; try discriminate.
    destruct (allSettled probes) as [rs|] eqn:Hrs; [|discriminate].
    intros [= <-]. eapply IsResume; eauto.
  - destruct (workers s !! w) as [[host probes|]|] eqn:Hw; try discriminate.
    intros [= <-]. eapply IsFault; [exact Hw| |reflexivity].
    rewrite pendingOf_length. lia.
  - destruct (orphans s !! k) as [c|] eqn:Hk; [|discriminate].
    intros [= <-]. eapply IsStray; [|reflexivity]. eapply lookup_lt_Some, Hk.
  - intros [= <-]. apply IsCancel. reflexivity.
  - destruct (results s) as [|h hs] eqn:Hres; [discriminate|].
    intros [= <-]. apply IsClear; [congruence|reflexivity].
  - destruct (inFlight s) eqn:Hfl; [|discriminate].
    destruct (forallb isDone (workers s)) eqn:Hd; [|discriminate].
    intros [= <-]. apply IsFinish; auto.
Qed.

Lemma tagOf_cancel ev : isCancel ev = false -> tagOf ev <> Cancelling.
Proof.
  destruct ev as [w i o|w i|w|w e|k| | |]; cbn; try discriminate.
  destruct (raising o); discriminate.
Qed.

Lemma tagOf_clear ev : isClear ev = false -> tagOf ev <> Clearing.
Proof.
  destruct ev as [w i o|w i|w|w e|k| | |]; cbn; try discriminate.
  destruct (raising o); discriminate.
Qed.

Lemma tagOf_fails ev : fails ev = false -> tagOf ev <> Failing.
Proof.
  destruct ev as [w i o|w i|w|w e|k| | |]; cbn; try discriminate.
  intros ->. discriminate.
Qed.

(** An invariant kept by every kind of step holds along every run. *)
Lemma exec_invariant (I : state -> Prop) evs s s' :
  (forall t a b, I a -> stepKind a b t -> I b) ->
  I s -> exec evs s = Some s' -> I s'.
Proof.
  intros Hstep. revert s. induction evs as [|ev evs IH]; intros s Hs; cbn.
  - intros [= <-]. exact Hs.
  - destruct (step ev s) as [s1|] eqn:E; [|discriminate].
    apply IH. eapply Hstep; [exact Hs|]. eapply step_kind, E.
Qed.

(** The same for an invariant that speaks of the cleared results. *)
Lemma exec_ghost (I : list string -> state -> Prop) evs g s s' :
  (forall t g a b, I g a -> stepKind a b t -> I (g ++ clearedAt t a) b) ->
  I g s -> exec evs s = Some s' -> I (g ++ cleared evs s) s'.
Proof.
  intros Hstep. revert g s. induction evs as [|ev evs IH]; intros g s Hs; cbn.
  - intros [= <-]. rewrite app_nil_r. exact Hs.
  - destruct (step ev s) as [s1|] eqn:E; [|discriminate].
    intros H. rewrite app_assoc. apply IH; [|exact H].
    eapply Hstep; [exact Hs|]. eapply step_kind, E.
Qed.

(** The same along the runs that avoid some events. *)
Lemma exec_avoiding (bad : event -> bool) (I : state -> Prop) evs s s' :
  (forall ev a b, bad ev = false -> I a -> step ev a = Some b -> I b) ->
  existsb bad evs = false -> I s -> exec evs s = Some s' -> I s'.
Proof.
  intros Hstep. revert s. induction evs as [|ev evs IH]; intros s; cbn.
  - intros _ Hs [= <-]. exact Hs.
  - intros [Hev Hevs]%orb_false_elim Hs.
    destruct (step ev s) as [s1|] eqn:E; [|discriminate].
    apply (IH s1 Hevs). eapply Hstep; eauto.
Qed.

Lemma cleared_none evs s : existsb isClear evs = false -> cleared evs s = [].
Proof.
  revert s. induction evs as [|ev evs IH]; intros s; cbn; [reflexivity|].
  intros [Hev Hevs]%orb_false_elim.
  destruct (step ev s) as [s1|]; [|reflexivity].
  rewrite (IH s1 Hevs), app_nil_r.
  pose proof (tagOf_clear ev Hev). destruct (tagOf ev); cbn; congruence.
Qed.

Lemma queue_allNonEmpty T g s :
  runInv T g s -> allNonEmpty T -> allNonEmpty (queue s).
Proof.
  intros (_ & _ & (k & Hq & _) & _) HT. rewrite Hq. apply Forall_drop, HT.
Qed.

Lemma runInv_whole T g s :
  runInv T g s ->
  Permutation (g ++ map ip (results s) ++ awaitedIps (workers s) ++ queue s) T.
Proof.
  intros (_ & _ & (k & Hq & Hperm) & _).
  rewrite <- (take_drop k T), Hq, !app_assoc.
  apply Permutation_app_tail. rewrite <- !app_assoc. exact Hperm.
Qed.

Lemma failedHost_respondedOk host P e : P <> [] -> respondedOk (failedHost host P e).
Proof.
  intros HP. unfold respondedOk, failedHost. cbn [responded ports].
  assert (Hopen : forall l,
    existsb isOpen
      (map (fun port =>
              mkPortResult port (protocolForPort port) error None
                (Some (default "Falha desconhecida"%string (messageOf e)))) l)
    = false).
  { induction l as [|q l IH]; cbn; [reflexivity|exact IH]. }
  rewrite Hopen. destruct P as [|p P]; [congruence|reflexivity].
Qed.

Lemma publish_inv T g s w host probes h :
  runInv T g s -> allNonEmpty T ->
  workers s !! w = Some (Awaiting host probes) ->
  ip h = host -> respondedOk h ->
  runInv T g (publish w h s).
Proof.
  intros Hinv HT Hw Hip Hresp.
  pose proof (queue_allNonEmpty T g s Hinv HT) as Hqne.
  destruct Hinv as (Hcur & Htot & (k & Hq & Hperm) & Hports & Hok & Hidle).
  pose proof (nextTurn_conserves (cancelRequested s) (queue s) (scanPorts s) Hqne)
    as Hturn.
  unfold runInv. fields.
  remember (nextTurn (cancelRequested s) (queue s) (scanPorts s)) as turn.
  split; [rewrite length_app; cbn [length]; lia|].
  split; [exact Htot|].
  split.
  { rewrite Hq in Hturn. symmetry in Hturn.
    destruct (drop_split _ _ _ _ Hturn) as [Hrest Htake].
    exists (k + length (awaited (fst turn)))%nat. split; [exact Hrest|].
    rewrite Htake, map_app. cbn [map]. rewrite Hip.
    pose proof (awaitedIps_insert (workers s) w _ (fst turn) Hw) as P.
    cbn [awaited] in P.
    rewrite <- (app_assoc (map ip (results s))).
    etransitivity; [apply Permutation_app_head, Permutation_app_head, P|].
    etransitivity;
      [apply Permutation_app_head, Permutation_app_head, Permutation_app_comm|].
    rewrite !app_assoc. apply Permutation_app_tail.
    rewrite <- !app_assoc. exact Hperm. }
  split; [exact Hports|].
  split; [apply Forall_app; split; [exact Hok|repeat constructor; exact Hresp]|].
  intros Hfl. exfalso. eapply lookup_not_done; [exact Hw|apply Hidle, Hfl].
Qed.

Lemma runInv_orphan T g s strays : runInv T g s -> runInv T g (orphan strays s).
Proof. intros H. exact H. Qed.

(** Every kind of step keeps the invariant of the run. *)
Lemma run_step T t g a b :
  allNonEmpty T -> runInv T g a -> stepKind a b t ->
  runInv T (g ++ clearedAt t a) b.
Proof.
  intros HT Hinv
    [w i host probes p o r Hw Hi Hr ->|w host probes rs Hw Hrs ->
    |w host probes e strays Hw Hlen ->|k Hk ->|Hfl Hd ->| ->|Hne ->];
    cbn [clearedAt]; rewrite ?app_nil_r.
  - destruct Hinv as (Hcur & Htot & Hpre & Hports & Hok & Hidle).
    unfold runInv. fields. rewrite (awaitedIps_same_host _ _ _ _ _ Hw).
    repeat (split; [assumption|]).
    intros Hfl. exfalso. eapply lookup_not_done; [exact Hw|apply Hidle, Hfl].
  - apply (publish_inv T g a w host probes); auto; reflexivity.
  - apply runInv_orphan, (publish_inv T g a w host probes); auto;
      try reflexivity. apply failedHost_respondedOk, Hinv.
  - exact Hinv.
  - destruct Hinv as (Hcur & Htot & Hpre & Hports & Hok & Hidle).
    unfold runInv. fields. rewrite awaitedIps_abort, isDone_abort. auto 10.
  - destruct Hinv as (Hcur & Htot & Hpre & Hports & Hok & Hidle).
    unfold runInv. fields. rewrite awaitedIps_abort, isDone_abort. auto 10.
  - destruct Hinv as (Hcur & Htot & (k & Hq & Hperm) & Hports & Hok & Hidle).
    unfold runInv. fields.
    split; [rewrite length_app, length_map; cbn [length]; lia|].
    split; [exact Htot|].
    split; [exists k; split; [exact Hq|];
            cbn [map app]; rewrite <- app_assoc; exact Hperm|].
    split; [exact Hports|]. split; [constructor|exact Hidle].
Qed.

Lemma exec_run T evs g s s' :
  allNonEmpty T -> runInv T g s -> exec evs s = Some s' ->
  runInv T (g ++ cleared evs s) s'.
Proof.
  intros HT. apply (exec_ghost (runInv T)).
  intros t g' a b Ha Hk. apply run_step; assumption.
Qed.

Lemma steady_step T g t a b :
  allNonEmpty T -> runInv T g a -> steadyInv a ->
  t <> Cancelling -> stepKind a b t -> steadyInv b.
Proof.
  intros HT Hinv (Hc & Hne & Hq) Ht.
  pose proof (queue_allNonEmpty T g a Hinv HT) as Hqne.
  assert (Hpub : forall w h, steadyInv (publish w h a)).
  { intros w h. unfold steadyInv. fields.
    split; [exact Hc|]. split; [apply insert_nonempty, Hne|].
    rewrite Hc.
    destruct (nextTurn_steady (queue a) (scanPorts a) Hqne) as [E|E];
      [left; exact E|].
    destruct Hq as [Hq|Hq].
    - left. rewrite Hq. reflexivity.
    - right. apply insert_Forall; assumption. }
  intros Hkind.
  destruct Hkind as [w i host probes p o r Hw Hi Hr ->|w host probes rs Hw Hrs ->
                    |w host probes e strays Hw Hlen ->|k Hk ->|Hfl Hd ->| ->|Hres ->];
    try congruence.
  - unfold steadyInv. fields.
    split; [exact Hc|]. split; [apply insert_nonempty, Hne|].
    destruct Hq as [Hq|Hq]; [left; exact Hq|right].
    apply insert_Forall; [exact Hq|reflexivity].
  - apply Hpub.
  - exact (Hpub w (failedHost host (scanPorts a) e)).
  - unfold steadyInv. fields. auto.
  - unfold steadyInv. fields. rewrite (abortWorker_done _ Hd). auto.
  - unfold steadyInv. fields. auto.
Qed.

Lemma exec_steady T evs g s s' :
  allNonEmpty T -> runInv T g s -> steadyInv s ->
  existsb isCancel evs = false -> exec evs s = Some s' -> steadyInv s'.
Proof.
  intros HT. revert g s. induction evs as [|ev evs IH]; intros g s Hinv Hst; cbn.
  - intros _ [= <-]. exact Hst.
  - intros [Hev Hevs]%orb_false_elim.
    destruct (step ev s) as [s1|] eqn:E; [|discriminate].
    pose proof (step_kind ev s s1 E) as Hk.
    apply (IH (g ++ clearedAt (tagOf ev) s));
      [eapply run_step; eauto| |exact Hevs].
    eapply steady_step; eauto using tagOf_cancel.
Qed.

End RunInvariants.

(* ================================================================== *)
(** * The scan run: start, progress and completion *)
(* ================================================================== *)

Section RunProgress.

Lemma numberToIp_nonEmpty v : isEmpty (numberToIp v) = false.
Proof.
  unfold numberToIp. cbn [map join].
  destruct (toString (Z.rem (v / 256 ^ 3) 256)); reflexivity.
Qed.

Lemma buildTargetList_nonEmpty a b T :
  buildTargetList a b = Ok T -> allNonEmpty T.
Proof.
  unfold buildTargetList.
  destruct (ipToNumber a) as [sv| |]; cbn [bind]; try discriminate.
  destruct (ipToNumber b) as [ev| |]; cbn [bind]; try discriminate.
  destruct (ev <? sv); [discriminate|].
  destruct (ev - sv + 1 >? MAX_TARGETS); [discriminate|].
  intros [= <-]. apply List.Forall_forall.
  intros t [i [<- _]]%in_map_iff. apply numberToIp_nonEmpty.
Qed.

(** The state a started scan is in. *)
Lemma handleScan_form cfg sp s0 :
  handleScan cfg sp = Some s0 -> inFlight s0 = true ->
  exists T ws rest,
    buildTargetList (startIp cfg) (endIp cfg) = Ok T
    /\ parsePorts (portsInput cfg) <> []
    /\ 0 <= concurrency cfg
    /\ (1 <= length T)%nat
    /\ launch (workerCount cfg T) false T (parsePorts (portsInput cfg)) = (ws, rest)
    /\ s0 = mkState (mkProgress 0 (Z.of_nat (length T))) [] None true false
              rest (parsePorts (portsInput cfg)) ws true [].
Proof.
  unfold handleScan, workerCount.
  destruct (Nat.eqb_spec (length (parsePorts (portsInput cfg))) 0) as [|Hp];
    [intros [= <-]; discriminate|].
  destruct (buildTargetList (startIp cfg) (endIp cfg)) as [T|e|] eqn:HT;
    [|intros [= <-]; discriminate|discriminate].
  destruct (Nat.eqb_spec (length T) 0) as [|HlenT]; [intros [= <-]; discriminate|].
  destruct (Z.ltb_spec (Z.min (concurrency cfg) (Z.of_nat (length T))) 0) as [|Hn];
    [intros [= <-]; discriminate|].
  destruct (launch _ false T _) as [ws rest] eqn:Hl.
  intros [= <-] _. exists T, ws, rest.
  split; [reflexivity|]. split; [intros E; rewrite E in Hp; apply Hp; reflexivity|].
  split; [lia|]. split; [lia|]. split; [exact Hl|reflexivity].
Qed.

Lemma launch_prefix n q P ws rest :
  launch n false q P = (ws, rest) ->
  allNonEmpty q -> (n <= length q)%nat ->
  ws = map (freshWorker P) (take n q) /\ rest = drop n q.
Proof.
  revert q ws rest. induction n as [|n IH]; intros q ws rest; cbn [launch].
  - intros [= <- <-] _ _. rewrite take_0, drop_0. auto.
  - intros H Hq Hlen.
    destruct q as [|host q']; [cbn in Hlen; lia|].
    inversion Hq as [|? ? Hhost Hq']; subst.
    unfold nextTurn in H. cbn in H. rewrite Hhost in H.
    destruct (launch n false q' P) as [ws' rest'] eqn:E.
    injection H as <- <-.
    destruct (IH _ _ _ E Hq' ltac:(cbn in Hlen; lia)) as [-> ->].
    split; reflexivity.
Qed.

Lemma awaitedIps_fresh P l : awaitedIps (map (freshWorker P) l) = l.
Proof.
  unfold awaitedIps. induction l as [|x l IH]; cbn; [reflexivity|].
  rewrite IH. reflexivity.
Qed.

Lemma workerCount_le cfg T : (workerCount cfg T <= length T)%nat.
Proof. unfold workerCount. lia. Qed.

Lemma handleScan_initial cfg sp s0 :
  handleScan cfg sp = Some s0 -> inFlight s0 = true ->
  exists T,
    buildTargetList (startIp cfg) (endIp cfg) = Ok T
    /\ allNonEmpty T
    /\ parsePorts (portsInput cfg) <> []
    /\ 0 <= concurrency cfg
    /\ (1 <= length T)%nat
    /\ s0 = mkState (mkProgress 0 (Z.of_nat (length T))) [] None true false
              (drop (workerCount cfg T) T) (parsePorts (portsInput cfg))
              (map (freshWorker (parsePorts (portsInput cfg)))
                 (take (workerCount cfg T) T))
              true [].
Proof.
  intros Hstart Hfl.
  destruct (handleScan_form cfg sp s0 Hstart Hfl)
    as (T & ws & rest & HT & Hp & Hc & HlenT & Hl & ->).
  pose proof (buildTargetList_nonEmpty _ _ _ HT) as Hne.
  destruct (launch_prefix _ _ _ _ _ Hl Hne (workerCount_le cfg T)) as [-> ->].
  exists T. auto 10.
Qed.

(** A scan that starts: the state [handleScan] leaves at its [await]. *)
Lemma handleScan_started cfg sp s0 :
  handleScan cfg sp = Some s0 -> inFlight s0 = true ->
  exists T,
    buildTargetList (startIp cfg) (endIp cfg) = Ok T
    /\ allNonEmpty T /\ runInv T [] s0
    /\ results s0 = []
    /\ progress s0 = mkProgress 0 (Z.of_nat (length T))
    /\ (1 <= concurrency cfg -> steadyInv s0).
Proof.
  intros Hstart Hfl.
  destruct (handleScan_initial cfg sp s0 Hstart Hfl)
    as (T & HT & Hne & Hp & Hc & HlenT & ->).
  exists T. split; [exact HT|]. split; [exact Hne|].
  split.
  { unfold runInv. fields. cbn [length map app].
    split; [reflexivity|]. split; [reflexivity|].
    split; [exists (workerCount cfg T); rewrite awaitedIps_fresh; auto|].
    split; [exact Hp|]. split; [constructor|discriminate]. }
  split; [reflexivity|]. split; [reflexivity|].
  intros Hconc. unfold steadyInv. fields.
  split; [reflexivity|]. split.
  - assert (Hn : (1 <= workerCount cfg T)%nat) by (unfold workerCount; lia).
    destruct T as [|t T]; [cbn in HlenT; lia|].
    destruct (workerCount cfg (t :: T)); [lia|]. discriminate.
  - right. apply List.Forall_forall. intros w [host [<- _]]%in_map_iff.
    reflexivity.
Qed.

Lemma step_counts ev s s' : step ev s = Some s' -> countsOneHost s s'.
Proof.
  intros H. apply step_kind in H. unfold countsOneHost.
  destruct H as [w i host probes p o r Hw Hi Hr ->|w host probes rs Hw Hrs ->
                |w host probes e strays Hw Hlen ->|k Hk ->|Hfl Hd ->| ->|Hres ->];
    fields; auto.
  - right. left. exists w, host, probes, (scanHost host rs). auto.
  - right. left. exists w, host, probes, (failedHost host (scanPorts s) e). auto.
Qed.

Lemma list_sum_insert {A} (f : A -> nat) (ws : list A) w x y :
  ws !! w = Some x ->
  (f x + list_sum (map f (<[w := y]> ws)) = f y + list_sum (map f ws))%nat.
Proof.
  intros H. pose proof (insert_swap ws w x y H) as P.
  apply (Permutation_map f), Permutation_list_sum in P. exact P.
Qed.

Lemma probeCost_fresh P : list_sum (map probeCost (map Pending P)) = length P.
Proof.
  induction P as [|p P IH]; [reflexivity|].
  cbn [map list_sum fold_right length probeCost isPending].
  change (fold_right Init.Nat.add 0%nat (map probeCost (map Pending P)))
    with (list_sum (map probeCost (map Pending P))).
  rewrite IH. reflexivity.
Qed.

Lemma nextTurn_cost c q P :
  (workerCost (fst (nextTurn c q P)) + length (snd (nextTurn c q P)) * (2 + length P)
   <= length q * (2 + length P))%nat.
Proof.
  unfold nextTurn. destruct q as [|host rest]; cbn [length Nat.eqb negb andb].
  - cbn. lia.
  - destruct c; cbn [negb fst snd workerCost length]; [lia|].
    destruct (isEmpty host); cbn [fst snd workerCost length];
      rewrite ?probeCost_fresh; lia.
Qed.

(** Every step other than a cancel or a click on the clear button uses
    up some of the measure. *)
Lemma measure_step t a b :
  stepKind a b t -> t <> Cancelling -> t <> Clearing ->
  (measure b < measure a)%nat.
Proof.
  assert (Hpub : forall w host probes h strays,
            workers a !! w = Some (Awaiting host probes) ->
            (length strays <= list_sum (map probeCost probes))%nat ->
            (measure (orphan strays (publish w h a)) < measure a)%nat).
  { intros w host probes h strays Hw Hlen. unfold measure. fields.
    pose proof (nextTurn_cost (cancelRequested a) (queue a) (scanPorts a)) as Hc.
    pose proof (list_sum_insert workerCost (workers a) w _
                  (fst (nextTurn (cancelRequested a) (queue a) (scanPorts a))) Hw) as Hs.
    cbn [workerCost] in Hs. rewrite length_app. lia. }
  intros [w i host probes p o r Hw Hi Hr ->|w host probes rs Hw Hrs ->
         |w host probes e strays Hw Hlen ->|k Hk ->|Hfl Hd ->| ->|Hres ->];
    try congruence; intros _ _.
  - unfold measure. fields.
    pose proof (list_sum_insert workerCost (workers a) w _
                  (Awaiting host (<[i := Settled r]> probes)) Hw) as Hs.
    pose proof (list_sum_insert probeCost probes i _ (Settled r) Hi) as Hp.
    cbn [workerCost probeCost isPending] in Hs, Hp. lia.
  - pose proof (Hpub w host probes (scanHost host rs) [] Hw ltac:(cbn; lia)) as H.
    unfold measure in *. revert H. fields. rewrite app_nil_r. auto.
  - eapply Hpub; eauto.
  - unfold measure. fields. pose proof (delete_shorter (orphans a) k Hk). lia.
  - unfold measure. fields. rewrite Hfl, (abortWorker_done _ Hd). cbn [length]. lia.
Qed.

Lemma find_awaiting ws :
  forallb isDone ws = true
  \/ exists w host probes, ws !! w = Some (Awaiting host probes).
Proof.
  induction ws as [|[host probes|] ws IH]; cbn.
  - left. reflexivity.
  - right. exists 0%nat, host, probes. reflexivity.
  - destruct IH as [H|(w & host & probes & H)]; [left; exact H|].
    right. exists (S w), host, probes. exact H.
Qed.

Lemma find_pending probes :
  (exists rs, allSettled probes = Some rs)
  \/ exists i p, probes !! i = Some (Pending p).
Proof.
  induction probes as [|[p|r] probes IH]; cbn.
  - left. eexists. reflexivity.
  - right. exists 0%nat, p. reflexivity.
  - destruct IH as [[rs H]|(i & p & H)].
    + left. rewrite H. eexists. reflexivity.
    + right. exists (S i), p. exact H.
Qed.

(** While the scan is in flight a step can be taken that is neither a
    cancel nor a click: the scan ends, a worker resumes, or the timer of
    a pending probe fires. *)
Lemma step_available s :
  inFlight s = true ->
  exists ev s',
    isCancel ev = false /\ isClear ev = false /\ step ev s = Some s'.
Proof.
  intros Hfl. destruct (find_awaiting (workers s)) as [Hd|(w & host & probes & Hw)].
  - exists Finish. cbn. rewrite Hfl, Hd. eexists. auto.
  - destruct (find_pending probes) as [[rs Hrs]|(i & p & Hi)].
    + exists (Resume w). cbn. rewrite Hw, Hrs. eexists. auto.
    + exists (Deadline w i). rewrite (step_deadline s w i host probes p Hw Hi).
      eexists. auto.
Qed.

(** From every state the scan can be brought to its end without a cancel,
    and no run of such steps is longer than the measure. *)
Lemma run_completes s :
  exists evs s',
    existsb isCancel evs = false /\ existsb isClear evs = false
    /\ exec evs s = Some s' /\ inFlight s' = false.
Proof.
  remember (measure s) as n eqn:Hn. revert s Hn.
  induction n as [n IH] using lt_wf_ind. intros s Hn.
  destruct (inFlight s) eqn:Hfl.
  - destruct (step_available s Hfl) as (ev & s1 & Hev & Hev' & Hstep).
    pose proof (measure_step _ s s1 (step_kind ev s s1 Hstep)
                  (tagOf_cancel ev Hev) (tagOf_clear ev Hev')) as Hlt.
    destruct (IH (measure s1) ltac:(lia) s1 eq_refl)
      as (evs & s' & H1 & H2 & H3 & H4).
    exists (ev :: evs), s'. cbn. rewrite Hev, Hev', Hstep. auto.
  - exists [], s. auto.
Qed.

End RunProgress.

(* ================================================================== *)
(** * The scan run: the results *)
(* ================================================================== *)

Lemma respondedOk_iff h :
  respondedOk h ->
  (responded h = true
   <-> (exists r, In r (ports h) /\ status r = open)
       \/ (forall r, In r (ports h) -> status r = timeout)).
Proof.
  unfold respondedOk. intros ->. rewrite orb_true_iff, existsb_exists, forallb_forall.
  unfold isOpen, isTimeout. split.
  - intros [(r & Hr & E)|H]; [left; exists r; split; [exact Hr|apply statusEqb_eq, E]|].
    right. intros r Hr. apply statusEqb_eq, H, Hr.
  - intros [(r & Hr & E)|H]; [left; exists r; split; [exact Hr|apply statusEqb_eq, E]|].
    right. intros r Hr. apply statusEqb_eq, H, Hr.
Qed.

(** The invariant of a run at the end of any of its runs of events. *)
Lemma scan_inv cfg sp s0 evs s :
  handleScan cfg sp = Some s0 -> inFlight s0 = true ->
  exec evs s0 = Some s ->
  exists T,
    buildTargetList (startIp cfg) (endIp cfg) = Ok T
    /\ allNonEmpty T /\ runInv T (cleared evs s0) s.
Proof.
  intros Hstart Hfl Hexec.
  destruct (handleScan_started cfg sp s0 Hstart Hfl) as (T & HT & Hne & Hinv & _).
  exists T. split; [exact HT|]. split; [exact Hne|].
  exact (exec_run T evs [] s0 s Hne Hinv Hexec).
Qed.

(** C1.  Every host result in the result store of a scan, at any point
    of any run (whatever the order of the steps, with or without a
    cancel, and whether the result comes from [scanHost] or from the
    worker's fallback), has responded = true if and only if one of its
    port results is [open] or all of them are [timeout]. *)
Theorem responded_invariant
  (cfg : inputs) (sp s0 s : state) (evs : list event) (h : HostResult) :
  handleScan cfg sp = Some s0 -> inFlight s0 = true ->
  exec evs s0 = Some s ->
  In h (results s) ->
  (responded h = true
   <-> (exists r, In r (ports h) /\ status r = open)
       \/ (forall r, In r (ports h) -> status r = timeout)).
Proof.
  intros Hstart Hfl Hexec Hin.
  destruct (scan_inv cfg sp s0 evs s Hstart Hfl Hexec)
    as (T & _ & _ & _ & _ & _ & _ & Hok & _).
  rewrite List.Forall_forall in Hok. apply respondedOk_iff, Hok, Hin.
Qed.

Lemma responded_invariant_witness :
  exists s0 s h,
    handleScan smallScan initial = Some s0
    /\ exec [Fault 0 (OtherValue None)] s0 = Some s
    /\ In h (results s)
    /\ ports h <> []
    /\ (responded h = true
        <-> (exists r, In r (ports h) /\ status r = open)
            \/ (forall r, In r (ports h) -> status r = timeout)).
Proof.
  eexists. eexists. eexists.
  split; [vm_compute; reflexivity|].
  split; [vm_compute; reflexivity|].
  split; [left; reflexivity|].
  split; [discriminate|].
  eapply (responded_invariant smallScan initial _ _ [Fault 0 (OtherValue None)]);
    [vm_compute; reflexivity|reflexivity|vm_compute; reflexivity|left; reflexivity].
Defined.

Lemma failedHost_ports host P e :
  map port (ports (failedHost host P e)) = P
  /\ Forall (fun r => status r = error
                      /\ latency r = None
                      /\ errorMessage r
                         = Some (default "Falha desconhecida"%string (messageOf e)))
       (ports (failedHost host P e)).
Proof.
  unfold failedHost. cbn [ports]. split.
  - rewrite map_map. cbn. apply map_id.
  - apply List.Forall_forall. intros r [p [<- _]]%in_map_iff. auto.
Qed.

Lemma failureDetail_default e :
  default "Falha desconhecida"%string (messageOf e) = failureDetail e.
Proof. destruct e as [name m|m| |[m|]]; reflexivity. Qed.

Lemma failedHost_failedWith host P e : failedWith e P (failedHost host P e).
Proof.
  destruct (failedHost_ports host P e) as [H1 H2].
  split; [reflexivity|]. split; [exact H1|].
  rewrite <- failureDetail_default. exact H2.
Qed.

(** C5 (counterexample).  With a concurrency of 0 no worker is launched:
    the scan ends at once, nobody having cancelled it, reports
    completion, and has counted none of its three targets. *)
Lemma scan_without_workers_counterexample :
  (exists s0 s,
      handleScan (mkInputs "10.0.0.1" "10.0.0.3" "80" 0) initial = Some s0
      /\ inFlight s0 = true
      /\ exec [Finish] s0 = Some s
      /\ inFlight s = false
      /\ statusMessage s = Some Completed
      /\ progress s = mkProgress 0 3 /\ results s = [])
  /\ ~ everyRunCountsAll.
Proof.
  assert (Hrun : exists s0 s,
      handleScan (mkInputs "10.0.0.1" "10.0.0.3" "80" 0) initial = Some s0
      /\ inFlight s0 = true
      /\ exec [Finish] s0 = Some s
      /\ inFlight s = false
      /\ statusMessage s = Some Completed
      /\ progress s = mkProgress 0 3 /\ results s = []).
  { eexists. eexists. split; [vm_compute; reflexivity|].
    split; [reflexivity|]. split; [vm_compute; reflexivity|]. repeat split. }
  split; [exact Hrun|].
  destruct Hrun as (s0 & s & Hstart & Hfl & Hexec & Hend & _ & Hprog & _).
  intros H.
  specialize (H _ _ _ [Finish] _ Hstart Hfl eq_refl Hexec Hend).
  rewrite Hprog in H. discriminate.
Qed.

(** C5 (amended).  At every point of every run of a scan: the
    completed-host counter is the number of host results appended so far
    (those still in the results and those a click on the clear button
    has removed) and never exceeds the number of targets; every target
    address is exactly once among the appended results, the hosts the
    workers hold and the queue; a step changes results and counter
    either not at all, or by one result appended for the host the worker
    held together with one increment, or (a click on the clear button)
    by emptying the results and leaving the counter.  When the scan of a
    host fails (a probe raises, or [scanHost] rejects for any reason)
    that one result marks every port [error], with the message of the
    error as detail.  When a run has ended, cancelled or not, every
    address taken from the queue has exactly one appended result.  A run
    started with a concurrency of at least 1 that has ended without a
    cancel has counted every target, with one appended result per
    target.  And the scan can always be brought to its end. *)
Theorem scan_counts_every_host
  (cfg : inputs) (sp s0 s : state) (evs : list event) :
  handleScan cfg sp = Some s0 -> inFlight s0 = true ->
  exec evs s0 = Some s ->
  exists targets,
    buildTargetList (startIp cfg) (endIp cfg) = Ok targets
    /\ results s0 = []
    /\ progress s0 = mkProgress 0 (Z.of_nat (length targets))
    /\ total (progress s) = Z.of_nat (length targets)
    /\ current (progress s)
       = Z.of_nat (length (cleared evs s0) + length (results s))
    /\ 0 <= current (progress s) <= total (progress s)
    /\ Permutation
         (cleared evs s0 ++ map ip (results s)
          ++ awaitedIps (workers s) ++ queue s)
         targets
    /\ (existsb isClear evs = false -> cleared evs s0 = [])
    /\ (forall ev s', step ev s = Some s' -> countsOneHost s s')
    /\ (forall ev s',
          fails ev = true -> step ev s = Some s' ->
          exists w host probes e h,
            workers s !! w = Some (Awaiting host probes)
            /\ match ev with Fault _ e' => e = e' | _ => e = noMessageError end
            /\ results s' = results s ++ [h]
            /\ current (progress s') = current (progress s) + 1
            /\ ip h = host
            /\ failedWith e (scanPorts s) h)
    /\ (inFlight s = false ->
        Permutation (cleared evs s0 ++ map ip (results s) ++ queue s) targets)
    /\ (1 <= concurrency cfg ->
        existsb isCancel evs = false -> inFlight s = false ->
        current (progress s) = total (progress s)
        /\ Permutation (cleared evs s0 ++ map ip (results s)) targets)
    /\ (exists evs' s',
          existsb isCancel evs' = false /\ existsb isClear evs' = false
          /\ exec evs' s = Some s' /\ inFlight s' = false).
Proof.
  intros Hstart Hfl Hexec.
  destruct (handleScan_started cfg sp s0 Hstart Hfl)
    as (T & HT & Hne & Hinv0 & Hres0 & Hprog0 & Hsteady0).
  pose proof (exec_run T evs [] s0 s Hne Hinv0 Hexec) as Hinv.
  cbn [app] in Hinv.
  pose proof (runInv_whole _ _ _ Hinv) as Hperm.
  pose proof Hinv as (Hcur & Htot & _ & Hports & Hok & Hidle).
  exists T. split; [exact HT|]. split; [exact Hres0|]. split; [exact Hprog0|].
  split; [exact Htot|]. split; [exact Hcur|].
  split.
  { apply Permutation_length in Hperm.
    rewrite !length_app, length_map in Hperm. lia. }
  split; [exact Hperm|].
  split; [apply cleared_none|].
  split; [intros ev s'; apply step_counts|].
  split.
  { intros ev s' Hev. destruct ev as [w i o|w i|w|w e|k| | |]; try discriminate;
      cbn [step fails] in *.
    - unfold settle.
      destruct (workers s !! w) as [[host probes|]|] eqn:Hw; try discriminate.
      destruct (probes !! i) as [[p|r]|] eqn:Hi; try discriminate.
      rewrite (raising_raises host p o Hev). intros [= <-].
      exists w, host, probes, noMessageError,
        (failedHost host (scanPorts s) noMessageError).
      fields. split; [exact Hw|]. do 4 (split; [reflexivity|]).
      apply failedHost_failedWith.
    - destruct (workers s !! w) as [[host probes|]|] eqn:Hw; try discriminate.
      intros [= <-].
      exists w, host, probes, e, (failedHost host (scanPorts s) e).
      fields. split; [exact Hw|]. do 4 (split; [reflexivity|]).
      apply failedHost_failedWith. }
  split.
  { intros Hend. rewrite (awaitedIps_done _ (Hidle Hend)) in Hperm. exact Hperm. }
  split; [|apply run_completes].
  intros Hconc Hnocancel Hend.
  pose proof (exec_steady T evs [] s0 s Hne Hinv0 (Hsteady0 Hconc) Hnocancel Hexec)
    as (_ & Hws & Hq).
  specialize (Hidle Hend).
  assert (Hqueue : queue s = []).
  { destruct Hq as [Hq|Hq]; [exact Hq|exfalso].
    destruct (workers s) as [|w ws]; [congruence|].
    inversion Hq as [|? ? Hw _]; subst. cbn in Hidle.
    rewrite Hw in Hidle. discriminate. }
  rewrite Hqueue, (awaitedIps_done _ Hidle), !app_nil_r in Hperm.
  split; [|exact Hperm].
  apply Permutation_length in Hperm. rewrite length_app, length_map in Hperm. lia.
Qed.

Lemma scan_counts_every_host_witness :
  exists s0 s,
    handleScan fullScan initial = Some s0
    /\ exec clearedRun s0 = Some s
    /\ inFlight s = false
    /\ progress s = mkProgress 3 3
    /\ map ip (results s) = ["10.0.0.2"; "10.0.0.3"]%string
    /\ exists targets,
         buildTargetList (startIp fullScan) (endIp fullScan) = Ok targets
         /\ results s0 = []
         /\ progress s0 = mkProgress 0 (Z.of_nat (length targets))
         /\ total (progress s) = Z.of_nat (length targets)
         /\ current (progress s)
            = Z.of_nat (length (cleared clearedRun s0) + length (results s))
         /\ 0 <= current (progress s) <= total (progress s)
         /\ Permutation
              (cleared clearedRun s0 ++ map ip (results s)
               ++ awaitedIps (workers s) ++ queue s)
              targets
         /\ (existsb isClear clearedRun = false -> cleared clearedRun s0 = [])
         /\ (forall ev s', step ev s = Some s' -> countsOneHost s s')
         /\ (forall ev s',
               fails ev = true -> step ev s = Some s' ->
               exists w host probes e h,
                 workers s !! w = Some (Awaiting host probes)
                 /\ match ev with
                    | Fault _ e' => e = e'
                    | _ => e = noMessageError
                    end
                 /\ results s' = results s ++ [h]
                 /\ current (progress s') = current (progress s) + 1
                 /\ ip h = host
                 /\ failedWith e (scanPorts s) h)
         /\ (inFlight s = false ->
             Permutation (cleared clearedRun s0 ++ map ip (results s) ++ queue s)
               targets)
         /\ (1 <= concurrency fullScan ->
             existsb isCancel clearedRun = false -> inFlight s = false ->
             current (progress s) = total (progress s)
             /\ Permutation (cleared clearedRun s0 ++ map ip (results s)) targets)
         /\ (exists evs' s',
               existsb isCancel evs' = false /\ existsb isClear evs' = false
               /\ exec evs' s = Some s' /\ inFlight s' = false).
Proof.
  eexists. eexists.
  split; [vm_compute; reflexivity|].
  split; [vm_compute; reflexivity|].
  split; [reflexivity|]. split; [reflexivity|]. split; [reflexivity|].
  eapply (scan_counts_every_host fullScan initial _ _ clearedRun);
    [vm_compute; reflexivity|reflexivity|vm_compute; reflexivity].
Defined.

(* ================================================================== *)
(** * CSV export *)
(* ================================================================== *)

Section Csv.

Lemma toUpperCase_protocol p :
  toUpperCase (protocolText p)
  = match p with http => "HTTP" | https => "HTTPS" end%string.
Proof. destruct p; reflexivity. Qed.

Lemma toUpperCase_status st :
  toUpperCase (statusText st)
  = match st with
    | open => "OPEN" | closed => "CLOSED" | timeout => "TIMEOUT" | error => "ERROR"
    end%string.
Proof. destruct st; reflexivity. Qed.

Lemma csvLine_rowOf h p : csvLine h p = rowOf h p.
Proof.
  unfold csvLine, rowOf. rewrite toUpperCase_protocol, toUpperCase_status.
  destruct (errorMessage p) as [[|c m]|]; reflexivity.
Qed.

Lemma rowOf_lineFree h p : lineFree (ip h) -> lineFree (rowOf h p).
Proof.
  intros Hip. unfold lineFree, rowOf. apply all_join; [reflexivity|].
  constructor; [exact Hip|].
  constructor; [apply toString_free; reflexivity|].
  constructor; [destruct (protocol p); reflexivity|].
  constructor; [destruct (status p); reflexivity|].
  constructor.
  { destruct (latency p); [apply toString_free|]; reflexivity. }
  constructor; [|constructor].
  destruct (errorMessage p) as [m|]; [|reflexivity].
  apply (all_impl (fun c => negb (isLineBreak c)));
    [|apply collapseLineBreaks_clean].
  intros c Hc. unfold isNot, isLineBreak in *.
  apply negb_true_iff in Hc. apply orb_false_elim in Hc as [_ Hc].
  apply negb_true_iff. exact Hc.
Qed.

Lemma csvLines_rowOf hosts :
  csvLines hosts = flat_map (fun h => map (rowOf h) (ports h)) hosts.
Proof.
  unfold csvLines. induction hosts as [|h hosts IH]; cbn; [reflexivity|].
  rewrite IH. f_equal. apply map_ext, csvLine_rowOf.
Qed.

Lemma csvLines_length hosts :
  length (csvLines hosts) = list_sum (map (fun h => length (ports h)) hosts).
Proof.
  unfold csvLines. induction hosts as [|h hosts IH]; cbn; [reflexivity|].
  rewrite length_app, length_map, IH. reflexivity.
Qed.

Lemma csvLines_lineFree hosts :
  Forall (fun h => lineFree (ip h)) hosts -> Forall lineFree (csvLines hosts).
Proof.
  intros H. rewrite csvLines_rowOf.
  induction H as [|h hosts Hh Hhosts IH]; cbn; [constructor|].
  apply Forall_app. split; [|exact IH].
  apply List.Forall_forall. intros line [p [<- _]]%in_map_iff.
  apply rowOf_lineFree, Hh.
Qed.

Lemma numberToIp_lineFree v : lineFree (numberToIp v).
Proof.
  unfold lineFree, numberToIp. apply all_join; [reflexivity|].
  repeat constructor; apply toString_free; reflexivity.
Qed.

(** The addresses in the results of a scan are rendered by [numberToIp]
    and hold no line feed. *)
Lemma scan_results_lineFree cfg sp s0 evs s :
  handleScan cfg sp = Some s0 -> inFlight s0 = true ->
  exec evs s0 = Some s ->
  Forall (fun h => lineFree (ip h)) (results s).
Proof.
  intros Hstart Hfl Hexec.
  destruct (scan_inv cfg sp s0 evs s Hstart Hfl Hexec) as (T & HT & Hne & Hinv).
  pose proof (runInv_whole _ _ _ Hinv) as Hperm.
  apply List.Forall_forall. intros h Hh.
  assert (Hin : In (ip h) T).
  { apply (Permutation_in _ Hperm). rewrite !in_app_iff.
    right. left. apply in_map, Hh. }
  revert Hin. clear - HT. unfold buildTargetList in HT.
  destruct (ipToNumber (startIp cfg)) as [sv| |]; cbn [bind] in HT; try discriminate.
  destruct (ipToNumber (endIp cfg)) as [ev| |]; cbn [bind] in HT; try discriminate.
  destruct (ev <? sv); [discriminate|].
  destruct (ev - sv + 1 >? MAX_TARGETS); [discriminate|].
  injection HT as <-. intros [i [<- _]]%in_map_iff. apply numberToIp_lineFree.
Qed.

End Csv.

(** C8 (counterexample).  For the empty sequence [handleDownload] returns
    before it builds any text: there is no serialization, hence no header
    row. *)
Lemma handleDownload_empty_counterexample :
  handleDownload [] = None /\ ~ exportsEverySequence.
Proof.
  split; [reflexivity|]. intros H.
  destruct (H []) as (csv & Hcsv & _). discriminate.
Qed.

(** C8 (amended).  For every non-empty sequence of host results whose
    addresses hold no line feed (as all addresses of a scan do), the CSV
    text split at line feeds is the header row
    "IP,Porta,Protocolo,Status,Latencia(ms),Mensagem" followed by one data
    row per port result, in order, sum(ports.length) rows in all; a data
    row joins with commas the address, the port, the protocol and the
    status in upper case, the latency or nothing, and the error message
    with every run of CR and LF collapsed to one space, or nothing. *)
Theorem handleDownload_rows (hosts : list HostResult) :
  hosts <> [] ->
  Forall (fun h => lineFree (ip h)) hosts ->
  exists csv,
    handleDownload hosts = Some csv
    /\ rows csv = header :: flat_map (fun h => map (rowOf h) (ports h)) hosts
    /\ length (rows csv) = S (list_sum (map (fun h => length (ports h)) hosts)).
Proof.
  intros Hne Hfree. unfold handleDownload.
  destruct hosts as [|h hosts]; [congruence|]. cbn [length Nat.eqb].
  eexists. split; [reflexivity|].
  assert (Hrows : rows (join newline (header :: csvLines (h :: hosts)))
                  = header :: csvLines (h :: hosts)).
  { unfold rows, newline. apply split_join; [discriminate|].
    constructor; [reflexivity|]. apply csvLines_lineFree, Hfree. }
  rewrite Hrows. split; [rewrite csvLines_rowOf; reflexivity|].
  cbn [length]. rewrite csvLines_length. reflexivity.
Qed.

Lemma handleDownload_rows_witness :
  exists s0 s,
    handleScan fullScan initial = Some s0
    /\ exec fullRun s0 = Some s
    /\ exists csv,
         handleDownload (results s) = Some csv
         /\ rows csv
            = header :: flat_map (fun h => map (rowOf h) (ports h)) (results s)
         /\ length (rows csv)
            = S (list_sum (map (fun h => length (ports h)) (results s))).
Proof.
  eexists. eexists.
  split; [vm_compute; reflexivity|].
  split; [vm_compute; reflexivity|].
  apply handleDownload_rows; [discriminate|].
  repeat constructor.
Defined.

(* ================================================================== *)
(** * Addresses: rejection, padding, canonical text *)
(* ================================================================== *)

Section AddressText.

Lemma split_length sep s : length (split sep s) = S (countChar sep s).
Proof.
  induction s as [|c s IH]; cbn [split countChar]; [reflexivity|].
  destruct (Ascii.eqb c sep); cbn [length]; [rewrite IH; reflexivity|].
  destruct (split sep s) as [|h t]; [discriminate|].
  cbn [length] in *. rewrite IH. reflexivity.
Qed.

Lemma join_split sep s : join (String sep EmptyString) (split sep s) = s.
Proof.
  induction s as [|c s IH]; cbn [split]; [reflexivity|].
  destruct (Ascii.eqb_spec c sep) as [->|Hc].
  - pose proof (split_nonempty sep s) as Hne.
    destruct (split sep s) as [|h t]; [congruence|].
    change (join (String sep EmptyString) (EmptyString :: h :: t))
      with (String sep (join (String sep EmptyString) (h :: t))).
    rewrite IH. reflexivity.
  - pose proof (split_nonempty sep s) as Hne.
    destruct (split sep s) as [|h t]; [congruence|].
    destruct t as [|h' t].
    + cbn [join] in *. rewrite IH. reflexivity.
    + change (join (String sep EmptyString) (String c h :: h' :: t))
        with (String c (join (String sep EmptyString) (h :: h' :: t))).
      rewrite IH. reflexivity.
Qed.

Lemma split_pieces_free sep s :
  Forall (fun x => Str.all (isNot sep) x = true) (split sep s).
Proof.
  induction s as [|c s IH]; cbn [split]; [repeat constructor|].
  destruct (Ascii.eqb c sep) eqn:Hc; [constructor; [reflexivity|exact IH]|].
  destruct (split sep s) as [|h t]; [repeat constructor; cbn; unfold isNot; rewrite Hc; reflexivity|].
  inversion IH as [|? ? Hh Ht]; subst. constructor; [|exact Ht].
  cbn. unfold isNot at 1. rewrite Hc, Hh. reflexivity.
Qed.

(** [ipToNumber] throws nothing but its own exception. *)
Lemma ipToNumber_throws ip e : ipToNumber ip = Throw e -> e = InvalidAddressFormat.
Proof.
  unfold ipToNumber.
  destruct (negb _ || existsb _ _); [congruence|].
  destruct (map Number (split "."%char (trim ip)))
    as [|[[|p0]|] [|[[|p1]|] [|[[|p2]|] [|[[|p3]|] [|? ?]]]]]; try discriminate.
  destruct (exact (p0 * 256 ^ 3 + p1 * 256 ^ 2)) as [s1|]; cbn; [|discriminate].
  destruct (exact (s1 + p2 * 256)) as [s2|]; cbn; [|discriminate].
  destruct (exact (s2 + p3)); discriminate.
Qed.

(** X1.  [ipToNumber] throws exactly when the trimmed text does not hold
    three dots, or when one of the components between the dots is no
    number (NaN); nothing else about a component is tested. *)
Theorem ipToNumber_rejects (ip : string) :
  ipToNumber ip = Throw InvalidAddressFormat
  <-> countChar "."%char (trim ip) <> 3%nat
      \/ exists part,
           In part (split "."%char (trim ip)) /\ Number part = Some NaN.
Proof.
  unfold ipToNumber. rewrite length_map, split_length.
  assert (Hnan : existsb isNaN (map Number (split "."%char (trim ip))) = true
                 <-> exists part,
                       In part (split "."%char (trim ip))
                       /\ Number part = Some NaN).
  { rewrite existsb_exists. split.
    - intros (n & [part [<- Hin]]%in_map_iff & Hn).
      exists part. split; [exact Hin|].
      destruct (Number part) as [[|z]|]; try discriminate. reflexivity.
    - intros (part & Hin & E). exists (Some NaN).
      split; [rewrite <- E; apply in_map, Hin|reflexivity]. }
  destruct (Nat.eqb_spec (S (countChar "."%char (trim ip))) 4) as [E4|N4];
    cbn [negb orb].
  - destruct (existsb isNaN _) eqn:Hex.
    + split; [intros _; right; apply Hnan; reflexivity|reflexivity].
    + split.
      * intros H. exfalso.
        destruct (map Number (split "."%char (trim ip)))
          as [|[[|p0]|] [|[[|p1]|] [|[[|p2]|] [|[[|p3]|] [|? ?]]]]];
          try discriminate.
        destruct (exact (p0 * 256 ^ 3 + p1 * 256 ^ 2)) as [s1|]; cbn in H;
          [|discriminate].
        destruct (exact (s1 + p2 * 256)) as [s2|]; cbn in H; [|discriminate].
        destruct (exact (s2 + p3)); discriminate.
      * intros [H|H]; [lia|]. apply Hnan in H. congruence.
  - split; [intros _; left; lia|reflexivity].
Qed.

Lemma trimEnd_blank b : Str.all isSpace b = true -> trimEnd b = EmptyString.
Proof.
  induction b as [|c b IH]; cbn [Str.all trimEnd]; [reflexivity|].
  intros [Hc Hb]%andb_prop. rewrite Hc, (IH Hb). reflexivity.
Qed.

Lemma trimEnd_pad t b : Str.all isSpace b = true -> trimEnd (t +:+ b) = trimEnd t.
Proof.
  intros Hb. induction t as [|c t IH]; cbn [String.append trimEnd].
  - apply trimEnd_blank, Hb.
  - rewrite IH. reflexivity.
Qed.

Lemma trimStart_blank b : Str.all isSpace b = true -> trimStart b = EmptyString.
Proof.
  induction b as [|c b IH]; cbn [Str.all trimStart]; [reflexivity|].
  intros [Hc Hb]%andb_prop. rewrite Hc. apply IH, Hb.
Qed.

Lemma trim_pad a s b :
  Str.all isSpace a = true -> Str.all isSpace b = true ->
  trim (a +:+ s +:+ b) = trim s.
Proof.
  intros Ha Hb. unfold trim.
  induction a as [|c a IH]; cbn [String.append trimStart].
  - induction s as [|c s IHs]; cbn [String.append trimStart].
    + rewrite (trimStart_blank b Hb). reflexivity.
    + destruct (isSpace c); [exact IHs|].
      apply (trimEnd_pad (String c s)), Hb.
  - cbn [Str.all] in Ha. apply andb_prop in Ha as [Hc Ha]. rewrite Hc.
    apply IH, Ha.
Qed.

(** X2.  White space around a boundary is ignored: padding the text on
    either side with white space characters does not change what
    [ipToNumber] returns or throws. *)
Theorem ipToNumber_padding (a s b : string) :
  Str.all isSpace a = true -> Str.all isSpace b = true ->
  ipToNumber (a +:+ s +:+ b) = ipToNumber s.
Proof.
  intros Ha Hb. unfold ipToNumber. rewrite (trim_pad a s b Ha Hb). reflexivity.
Qed.

Lemma ipToNumber_padding_witness :
  ipToNumber ("  " +:+ "192.168.0.1" +:+ String "009"%char " ")
  = ipToNumber "192.168.0.1".
Proof. apply ipToNumber_padding; reflexivity. Defined.

End AddressText.

Section CanonicalText.

Lemma digit_cases c : isDigit c = true -> In c digitChars.
Proof.
  destruct c as [[] [] [] [] [] [] [] []]; try discriminate; intros _;
    unfold digitChars; cbn [In]; repeat (try (left; reflexivity); right).
Qed.

Lemma canonicalOctet_digits s :
  isCanonicalOctet s = true ->
  isEmpty s = false /\ Str.all isDigit s = true
  /\ (String.eqb s "0" || negb (String.prefix "0" s)) = true
  /\ 0 <= digitsVal s <= 255.
Proof.
  unfold isCanonicalOctet.
  intros [[[Hne Hd]%andb_prop Hz]%andb_prop Hle]%andb_prop.
  apply negb_true_iff in Hne. apply Z.leb_le in Hle.
  pose proof (digitsValFrom_bounds 0 s Hd (Z.le_refl 0)). unfold digitsVal. auto.
Qed.

(** A canonical octet is the text of its value. *)
Lemma canonicalOctet_text s :
  isCanonicalOctet s = true -> toString (digitsVal s) = s.
Proof.
  intros H. destruct (canonicalOctet_digits s H) as (Hne & Hd & Hnz & Hr).
  destruct s as [|c1 [|c2 [|c3 [|c4 r]]]]; [discriminate| | | |].
  - cbn [Str.all] in Hd. apply andb_prop in Hd as [H1 _].
    pose proof (digit_cases c1 H1) as D1. unfold digitChars in D1. cbn [In] in D1.
    repeat destruct D1 as [<-|D1]; try contradiction; reflexivity.
  - cbn [Str.all] in Hd. apply andb_prop in Hd as [H1 [H2 _]%andb_prop].
    pose proof (digit_cases c1 H1) as D1. unfold digitChars in D1. cbn [In] in D1.
    pose proof (digit_cases c2 H2) as D2. unfold digitChars in D2. cbn [In] in D2.
    repeat destruct D1 as [<-|D1]; try contradiction;
      repeat destruct D2 as [<-|D2]; try contradiction;
      first [reflexivity | vm_compute in H; discriminate H].
  - cbn [Str.all] in Hd.
    apply andb_prop in Hd as [H1 [H2 [H3 _]%andb_prop]%andb_prop].
    pose proof (digit_cases c1 H1) as D1. unfold digitChars in D1. cbn [In] in D1.
    pose proof (digit_cases c2 H2) as D2. unfold digitChars in D2. cbn [In] in D2.
    pose proof (digit_cases c3 H3) as D3. unfold digitChars in D3. cbn [In] in D3.
    clear Hne Hnz Hr H1 H2 H3.
    repeat destruct D1 as [<-|D1]; try contradiction;
      repeat destruct D2 as [<-|D2]; try contradiction;
      repeat destruct D3 as [<-|D3]; try contradiction;
      first [reflexivity | vm_compute in H; discriminate H].
  - exfalso. cbn [Str.all] in Hd.
    apply andb_prop in Hd as [H1 [H2 [H3 [H4 Hd]%andb_prop]%andb_prop]%andb_prop].
    assert (Hlead : 1 <= digitVal c1).
    { pose proof (digit_cases c1 H1) as D1. unfold digitChars in D1. cbn [In] in D1.
      repeat destruct D1 as [<-|D1]; try contradiction;
        first [vm_compute; discriminate | vm_compute in Hnz; discriminate Hnz]. }
    destruct (digit_facts c2 H2) as (B2 & _).
    destruct (digit_facts c3 H3) as (B3 & _).
    destruct (digit_facts c4 H4) as (B4 & _).
    unfold digitsVal in Hr. cbn [digitsValFrom] in Hr.
    pose proof (digitsValFrom_bounds
                  (10 * (10 * (10 * (10 * 0 + digitVal c1) + digitVal c2)
                         + digitVal c3) + digitVal c4) r Hd ltac:(lia)).
    lia.
Qed.

Lemma canonicalOctet_octetText s : isCanonicalOctet s = true -> isOctetText s = true.
Proof.
  intros H. destruct (canonicalOctet_digits s H) as (Hne & Hd & _ & Hr).
  unfold isOctetText. rewrite Hne, Hd. cbn. apply Z.leb_le. lia.
Qed.

(** A canonical address is the dotted text of four octets. *)
Lemma canonicalAddress_dotted s :
  isCanonicalAddress s = true ->
  exists a b c d,
    s = dotted a b c d
    /\ 0 <= a < 256 /\ 0 <= b < 256 /\ 0 <= c < 256 /\ 0 <= d < 256.
Proof.
  unfold isCanonicalAddress. intros [Hlen Hall]%andb_prop.
  pose proof (join_split "."%char s) as Hjoin.
  destruct (split "."%char s) as [|sa [|sb [|sc [|sd [|? ?]]]]]; try discriminate.
  cbn [forallb] in Hall.
  apply andb_prop in Hall as [Ha Hall]. apply andb_prop in Hall as [Hb Hall].
  apply andb_prop in Hall as [Hc Hall]. apply andb_prop in Hall as [Hd _].
  exists (digitsVal sa), (digitsVal sb), (digitsVal sc), (digitsVal sd).
  split.
  - unfold dotted. cbn [map].
    rewrite !canonicalOctet_text by assumption. symmetry. exact Hjoin.
  - destruct (canonicalOctet_digits sa Ha) as (_ & _ & _ & ?).
    destruct (canonicalOctet_digits sb Hb) as (_ & _ & _ & ?).
    destruct (canonicalOctet_digits sc Hc) as (_ & _ & _ & ?).
    destruct (canonicalOctet_digits sd Hd) as (_ & _ & _ & ?).
    repeat split; lia.
Qed.

Lemma numberToIp_octets a b c d :
  0 <= a < 256 -> 0 <= b < 256 -> 0 <= c < 256 -> 0 <= d < 256 ->
  numberToIp (a * 256 ^ 3 + b * 256 ^ 2 + c * 256 + d) = dotted a b c d.
Proof.
  intros Ha Hb Hc Hd.
  assert (H32 : 2 ^ 32 = 4294967296) by reflexivity.
  assert (H3 : 256 ^ 3 = 16777216) by reflexivity.
  assert (H2 : 256 ^ 2 = 65536) by reflexivity.
  rewrite numberToIp_dotted by (rewrite H32, H3, H2; lia).
  rewrite H3, H2. f_equal; Z.div_mod_to_equations; lia.
Qed.

(** X3.  A canonical dotted-quad text is a fixed point of parsing and
    rendering: [ipToNumber] gives it a 32-bit value, [numberToIp] of that
    value is the same text, and the range from the address to itself
    expands to exactly that address. *)
Theorem canonical_roundtrip (s : string) :
  isCanonicalAddress s = true ->
  exists v,
    ipToNumber s = Ok v /\ 0 <= v < 2 ^ 32
    /\ numberToIp v = s
    /\ buildTargetList s s = Ok [s].
Proof.
  intros H. destruct (canonicalAddress_dotted s H) as (a & b & c & d & -> & Ha & Hb & Hc & Hd).
  pose proof (ipToNumber_dotted a b c d Ha Hb Hc Hd) as Hv.
  pose proof (numberToIp_octets a b c d Ha Hb Hc Hd) as Hs.
  exists (a * 256 ^ 3 + b * 256 ^ 2 + c * 256 + d).
  split; [exact Hv|]. split.
  { assert (2 ^ 32 = 4294967296) by reflexivity.
    assert (256 ^ 3 = 16777216) by reflexivity.
    assert (256 ^ 2 = 65536) by reflexivity. lia. }
  split; [exact Hs|].
  remember (a * 256 ^ 3 + b * 256 ^ 2 + c * 256 + d) as v.
  unfold buildTargetList. rewrite Hv. cbn [bind].
  rewrite Z.ltb_irrefl. replace (v - v + 1) with 1 by lia.
  change (Ok [numberToIp (v + 0)] = Ok [dotted a b c d]).
  rewrite Z.add_0_r, Hs. reflexivity.
Qed.

Lemma canonical_roundtrip_witness :
  exists v,
    ipToNumber "192.168.0.254" = Ok v /\ 0 <= v < 2 ^ 32
    /\ numberToIp v = "192.168.0.254"%string
    /\ buildTargetList "192.168.0.254" "192.168.0.254" = Ok ["192.168.0.254"%string].
Proof. apply canonical_roundtrip. vm_compute. reflexivity. Defined.

End CanonicalText.

Section Expansion.

Lemma numberToIp_parts v : length (split "."%char (numberToIp v)) = 4%nat.
Proof.
  unfold numberToIp.
  rewrite (split_join "."%char); [reflexivity|discriminate|].
  repeat constructor; apply toString_free; reflexivity.
Qed.

Lemma div_mod_shift v q m D :
  0 < D -> (v + q * (m * 256) * D) / D mod 256 = v / D mod 256.
Proof.
  intros HD. rewrite Z.div_add by lia.
  replace (q * (m * 256)) with (q * m * 256) by lia.
  apply Z.mod_add. discriminate.
Qed.

Lemma numberToIp_mod v : 0 <= v -> numberToIp v = numberToIp (v mod 2 ^ 32).
Proof.
  intros Hv. unfold numberToIp.
  assert (H32 : 2 ^ 32 = 4294967296) by reflexivity.
  assert (H3 : 256 ^ 3 = 16777216) by reflexivity.
  assert (H2 : 256 ^ 2 = 65536) by reflexivity.
  rewrite H32, H3, H2.
  assert (Hm : 0 <= v mod 4294967296) by (apply Z.mod_pos_bound; lia).
  rewrite !Z.rem_mod_nonneg by (try apply Z.div_pos; lia).
  rewrite (Z.mod_eq v 4294967296) by lia.
  set (q := v / 4294967296).
  assert (E : forall m D,
             0 < D -> m * 256 * D = 4294967296 ->
             (v - 4294967296 * q) / D mod 256 = v / D mod 256).
  { intros m D HD Hm'. rewrite <- Hm'.
    replace (v - m * 256 * D * q) with (v + - q * (m * 256) * D) by ring.
    apply div_mod_shift, HD. }
  assert (E0 : (v - 4294967296 * q) mod 256 = v mod 256).
  { replace (v - 4294967296 * q) with (v + - q * 16777216 * 256) by lia.
    apply Z.mod_add. discriminate. }
  rewrite (E 1 16777216), (E 256 65536), (E 65536 256), E0 by lia.
  reflexivity.
Qed.

(** X4.  [numberToIp] renders any integer as four numerals between three
    dots, and reads a non-negative value modulo 2^32: the text is always
    a canonical address, and values 2^32 apart have the same text. *)
Theorem numberToIp_wraps (v : Z) :
  length (split "."%char (numberToIp v)) = 4%nat
  /\ (0 <= v ->
      numberToIp v = numberToIp (v mod 2 ^ 32)
      /\ numberToIp (v + 2 ^ 32) = numberToIp v
      /\ isCanonicalAddress (numberToIp v) = true).
Proof.
  split; [apply numberToIp_parts|]. intros Hv.
  assert (Hm : 0 <= v mod 2 ^ 32 < 2 ^ 32) by (apply Z.mod_pos_bound; reflexivity).
  split; [apply numberToIp_mod, Hv|]. split.
  - rewrite (numberToIp_mod (v + 2 ^ 32)), (numberToIp_mod v) by lia.
    f_equal. rewrite <- (Z.mul_1_l (2 ^ 32)) at 1.
    apply Z.mod_add. discriminate.
  - rewrite numberToIp_mod by exact Hv. apply numberToIp_canonical, Hm.
Qed.

Lemma numberToIp_wraps_witness :
  length (split "."%char (numberToIp 4294967297)) = 4%nat
  /\ (0 <= 4294967297 ->
      numberToIp 4294967297 = numberToIp (4294967297 mod 2 ^ 32)
      /\ numberToIp (4294967297 + 2 ^ 32) = numberToIp 4294967297
      /\ isCanonicalAddress (numberToIp 4294967297) = true).
Proof. exact (numberToIp_wraps 4294967297). Defined.

(** X5.  What [buildTargetList] returns tells how it ended.  A list means
    both boundaries were given values with end >= start, and the list
    holds the texts of start, start + 1, ..., end: at least one address
    and at most 2048.  It throws [InvalidAddressFormat] only when
    [ipToNumber] rejects the start or, the start being accepted, the end;
    [RangeInverted] only when end < start; [RangeTooLarge] only when
    end >= start and end - start + 1 > 2048; and nothing else. *)
Theorem buildTargetList_cases (start end_ : string) :
  match buildTargetList start end_ with
  | Ok targets =>
      exists sv ev,
        ipToNumber start = Ok sv /\ ipToNumber end_ = Ok ev
        /\ sv <= ev
        /\ Z.of_nat (length targets) = ev - sv + 1
        /\ (1 <= length targets <= 2048)%nat
        /\ targets
           = map (fun i => numberToIp (sv + Z.of_nat i)) (seq 0 (length targets))
  | Throw InvalidAddressFormat =>
      ipToNumber start = Throw InvalidAddressFormat
      \/ (exists sv, ipToNumber start = Ok sv)
         /\ ipToNumber end_ = Throw InvalidAddressFormat
  | Throw RangeInverted =>
      exists sv ev,
        ipToNumber start = Ok sv /\ ipToNumber end_ = Ok ev /\ ev < sv
  | Throw RangeTooLarge =>
      exists sv ev,
        ipToNumber start = Ok sv /\ ipToNumber end_ = Ok ev
        /\ sv <= ev /\ ev - sv + 1 > 2048
  | Throw _ => False
  | Beyond =>
      ipToNumber start = Beyond
      \/ (exists sv, ipToNumber start = Ok sv) /\ ipToNumber end_ = Beyond
  end.
Proof.
  unfold buildTargetList.
  destruct (ipToNumber start) as [sv|e|] eqn:Hs; cbn [bind].
  2:{ rewrite (ipToNumber_throws _ _ Hs). left. reflexivity. }
  2:{ left. reflexivity. }
  destruct (ipToNumber end_) as [ev|e|] eqn:He; cbn [bind].
  2:{ rewrite (ipToNumber_throws _ _ He). right. eauto. }
  2:{ right. eauto. }
  destruct (Z.ltb_spec ev sv) as [Hlt|Hle]; [exists sv, ev; auto|].
  destruct (Z.gtb_spec (ev - sv + 1) MAX_TARGETS) as [Hgt|Hcap].
  { exists sv, ev. unfold MAX_TARGETS in Hgt. repeat split; auto; lia. }
  unfold MAX_TARGETS in Hcap. exists sv, ev.
  rewrite arrayInit_length.
  repeat split; auto; try lia.
Qed.

End Expansion.

(* ================================================================== *)
(** * Ports: parsing a rendered list *)
(* ================================================================== *)

Section PortLists.

Lemma splitRuns_start p b c r :
  p c = false -> splitRuns p b (String c r) = splitRuns p false (String c r).
Proof. intros H. cbn [splitRuns]. rewrite H. reflexivity. Qed.

Lemma splitRuns_free p b x :
  Str.all (fun c => negb (p c)) x = true -> splitRuns p b x = [x].
Proof.
  revert b. induction x as [|c x IH]; intros b; cbn [Str.all splitRuns];
    [reflexivity|].
  intros [Hc Hx]%andb_prop. apply negb_true_iff in Hc.
  rewrite Hc, (IH false Hx). reflexivity.
Qed.

Lemma splitRuns_piece p x sep r :
  Str.all (fun c => negb (p c)) x = true -> p sep = true ->
  splitRuns p false (x +:+ String sep r) = x :: splitRuns p true r.
Proof.
  intros Hx Hsep. induction x as [|c x IH]; cbn [String.append splitRuns].
  - rewrite Hsep. reflexivity.
  - cbn [Str.all] in Hx. apply andb_prop in Hx as [Hc Hx].
    apply negb_true_iff in Hc. rewrite Hc, (IH Hx). reflexivity.
Qed.

Lemma splitRuns_token p b x r :
  isEmpty x = false ->
  Str.all (fun c => negb (p c)) x = true ->
  splitRuns p b (x +:+ r) = splitRuns p false (x +:+ r).
Proof.
  destruct x as [|c x]; [discriminate|]. intros _ Hx.
  cbn [Str.all] in Hx. apply andb_prop in Hx as [Hc _].
  apply negb_true_iff in Hc. apply (splitRuns_start p b c (x +:+ r) Hc).
Qed.

Lemma splitRuns_join b xs :
  xs <> [] -> Forall isToken xs ->
  splitRuns isPortSeparator b (join "," xs) = xs.
Proof.
  intros Hne Hxs. revert b.
  induction Hxs as [|x xs [Hx1 Hx2] Hxs IH]; intros b; [congruence|].
  destruct xs as [|y xs].
  - cbn [join]. apply splitRuns_free, Hx2.
  - change (join "," (x :: y :: xs)) with (x +:+ String ","%char (join "," (y :: xs))).
    rewrite (splitRuns_token _ b x _ Hx1 Hx2).
    rewrite (splitRuns_piece _ x ","%char _ Hx2 eq_refl).
    rewrite IH by discriminate. reflexivity.
Qed.

Lemma token_trim x : isToken x -> trim x = x.
Proof.
  intros [_ Hx]. apply trim_id.
  apply (all_impl (fun c => negb (isPortSeparator c))); [|exact Hx].
  intros c Hc. unfold isPortSeparator in Hc.
  apply negb_true_iff, orb_false_elim in Hc as [_ Hc].
  apply negb_true_iff, Hc.
Qed.

(** The tokens of a comma-joined list of tokens are the list. *)
Lemma portChunks_join xs : Forall isToken xs -> portChunks (join "," xs) = xs.
Proof.
  intros Hxs. unfold portChunks.
  destruct xs as [|x xs]; [reflexivity|].
  rewrite splitRuns_join by (discriminate || exact Hxs).
  induction Hxs as [|y ys Hy Hys IH]; [reflexivity|].
  cbn [map List.filter]. rewrite (token_trim y Hy).
  destruct Hy as [Hy1 Hy2]. rewrite Hy1. cbn [negb]. rewrite IH. reflexivity.
Qed.

Lemma upFrom_In n a p : a <= p < a + Z.of_nat n -> In p (upFrom n a).
Proof.
  revert a. induction n as [|n IH]; intros a Hp; [lia|].
  cbn [upFrom In]. destruct (Z.eq_dec a p) as [->|Hne]; [left; reflexivity|].
  right. apply IH. lia.
Qed.

Lemma portChecks_all : forallb portChecks (upFrom (Z.to_nat 65535) 1) = true.
Proof. vm_compute. reflexivity. Qed.

Lemma portChecks_port p : 1 <= p <= 65535 -> portChecks p = true.
Proof.
  intros Hp. pose proof portChecks_all as Hall.
  rewrite forallb_forall in Hall. apply Hall, upFrom_In.
  rewrite Z2Nat.id; lia.
Qed.

Lemma port_token p : 1 <= p <= 65535 -> isToken (toString p).
Proof.
  intros Hp. pose proof (portChecks_port p Hp) as H. unfold portChecks in H.
  apply andb_prop in H as [[H1 H2]%andb_prop _].
  apply negb_true_iff in H1. split; assumption.
Qed.

Lemma port_parse p : 1 <= p <= 65535 -> parseInt10 (toString p) = Num p.
Proof.
  intros Hp. pose proof (portChecks_port p Hp) as H. unfold portChecks in H.
  apply andb_prop in H as [_ H].
  destruct (parseInt10 (toString p)) as [|q]; [discriminate|].
  apply Z.eqb_eq in H. congruence.
Qed.

Lemma parsePorts_In value p :
  In p (parsePorts value)
  <-> exists chunk, In chunk (portChunks value) /\ acceptedAs chunk p.
Proof.
  unfold parsePorts. split.
  - intros H. apply (Permutation_in _ (sortAscending_perm _)) in H.
    apply fold_addPort_In in H as [[]|H]. exact H.
  - intros H.
    apply (Permutation_in _ (Permutation_sym (sortAscending_perm _))).
    apply fold_addPort_In. right. exact H.
Qed.

Lemma parsePorts_ascending value : StronglySorted Z.lt (parsePorts value).
Proof.
  unfold parsePorts. apply sorted_distinct.
  - apply StronglySorted_merge_sort; apply _.
  - apply (Permutation_NoDup (Permutation_sym (sortAscending_perm _))).
    apply fold_addPort_NoDup. constructor.
Qed.

Lemma ascending_NoDup (l : list Z) : StronglySorted Z.lt l -> List.NoDup l.
Proof.
  induction 1 as [|x l Hs IH Hx]; constructor; [|exact IH].
  intros Hin. rewrite List.Forall_forall in Hx. specialize (Hx x Hin). lia.
Qed.

Lemma ascending_unique (l1 l2 : list Z) :
  StronglySorted Z.lt l1 -> StronglySorted Z.lt l2 ->
  (forall x, In x l1 <-> In x l2) -> l1 = l2.
Proof.
  intros H1 H2 Hmem.
  apply (StronglySorted_unique_strong Z.lt); [intros; lia|assumption..|].
  apply Permutation.NoDup_Permutation; [apply ascending_NoDup, H1
                                       |apply ascending_NoDup, H2|exact Hmem].
Qed.

(** X6.  A list of ports of [1, 65535] written out with commas, as the
    profile buttons write it into the ports field, parses back to the
    same ports: the result has exactly the members of the list, in
    strictly ascending order, and is the list itself when the list is
    already ascending. *)
Theorem parsePorts_join (l : list Z) :
  Forall (fun p => 1 <= p <= 65535) l ->
  (forall p, In p (parsePorts (join "," (map toString l))) <-> In p l)
  /\ StronglySorted Z.lt (parsePorts (join "," (map toString l)))
  /\ (StronglySorted Z.lt l -> parsePorts (join "," (map toString l)) = l).
Proof.
  intros Hl.
  assert (Htok : Forall isToken (map toString l)).
  { apply List.Forall_forall. intros x [p [<- Hp]]%in_map_iff.
    rewrite List.Forall_forall in Hl. apply port_token, Hl, Hp. }
  assert (Hmem : forall p, In p (parsePorts (join "," (map toString l))) <-> In p l).
  { intros p. rewrite parsePorts_In, (portChunks_join _ Htok).
    rewrite List.Forall_forall in Hl. split.
    - intros (chunk & [q [<- Hq]]%in_map_iff & Hacc & _).
      rewrite (port_parse q (Hl q Hq)) in Hacc. injection Hacc as <-. exact Hq.
    - intros Hp. exists (toString p). split; [apply in_map, Hp|].
      split; [apply port_parse, Hl, Hp|apply Hl, Hp]. }
  split; [exact Hmem|]. split; [apply parsePorts_ascending|].
  intros Hs. apply ascending_unique; [apply parsePorts_ascending|exact Hs|exact Hmem].
Qed.

Lemma parsePorts_join_witness :
  (forall p, In p (parsePorts (join "," (map toString [22; 3389; 5900; 5985])))
             <-> In p [22; 3389; 5900; 5985])
  /\ StronglySorted Z.lt (parsePorts (join "," (map toString [22; 3389; 5900; 5985])))
  /\ (StronglySorted Z.lt [22; 3389; 5900; 5985] ->
      parsePorts (join "," (map toString [22; 3389; 5900; 5985]))
      = [22; 3389; 5900; 5985]).
Proof. apply parsePorts_join. repeat constructor; lia. Defined.

End PortLists.

(* ================================================================== *)
(** * The scan run: how [handleScan] fails and starts *)
(* ================================================================== *)

Section ScanStart.

Lemma buildTargetList_length a b T :
  buildTargetList a b = Ok T -> (1 <= length T <= 2048)%nat.
Proof.
  unfold buildTargetList.
  destruct (ipToNumber a) as [sv| |]; cbn [bind]; try discriminate.
  destruct (ipToNumber b) as [ev| |]; cbn [bind]; try discriminate.
  destruct (Z.ltb_spec ev sv); [discriminate|].
  destruct (Z.gtb_spec (ev - sv + 1) MAX_TARGETS) as [|Hcap]; [discriminate|].
  intros [= <-]. rewrite arrayInit_length. unfold MAX_TARGETS in Hcap. lia.
Qed.


Lemma abortProbe_settled ip probes :
  pendingOf ip probes = [] -> map (abortProbe ip) probes = probes.
Proof.
  induction probes as [|[p|r] probes IH]; cbn; [reflexivity|discriminate|].
  intros H. rewrite (IH H). reflexivity.
Qed.

Lemma abortWorker_settled ws :
  flat_map (fun w => match w with
                     | Awaiting ip probes => pendingOf ip probes
                     | Done => []
                     end) ws = [] ->
  map abortWorker ws = ws.
Proof.
  induction ws as [|[ip probes|] ws IH]; cbn; [reflexivity| |].
  - intros [H1 H2]%app_eq_nil. rewrite (abortProbe_settled _ _ H1), (IH H2).
    reflexivity.
  - intros H. rewrite (IH H). reflexivity.
Qed.

(** X7.  A scan refused before it starts leaves its message and aborts
    what is in flight: when no port parses ([NoPortsSpecified], whatever
    the addresses are) or the ports parse and the range is refused with
    exception [e], [handleScan] ends at once with [Failed e] and the
    scanning flag down; progress, results and queue are as they were;
    the [finally] clause aborts every registered controller, so every
    probe in flight is settled as aborted, the workers keep their hosts
    and the registry is empty; with no controller registered the workers
    are as they were. *)
Theorem handleScan_preflight (cfg : inputs) (s : state) (e : exn) :
  (parsePorts (portsInput cfg) = [] /\ e = NoPortsSpecified)
  \/ (parsePorts (portsInput cfg) <> []
      /\ buildTargetList (startIp cfg) (endIp cfg) = Throw e) ->
  exists s',
    handleScan cfg s = Some s'
    /\ statusMessage s' = Some (Failed e)
    /\ isScanning s' = false /\ cancelRequested s' = false
    /\ inFlight s' = false
    /\ progress s' = progress s /\ results s' = results s
    /\ queue s' = queue s
    /\ workers s' = map abortWorker (workers s)
    /\ awaitedIps (workers s') = awaitedIps (workers s)
    /\ controllers s' = []
    /\ (controllers s = [] -> workers s' = workers s).
Proof.
  intros H.
  assert (Hs : handleScan cfg s
               = Some (failScan e
                         (mkState (progress s) (results s) None (isScanning s)
                            (cancelRequested s) (queue s) (scanPorts s)
                            (workers s) true (orphans s)))).
  { unfold handleScan. destruct H as [[Hp ->]|[Hp He]].
    - rewrite Hp. reflexivity.
    - destruct (Nat.eqb_spec (length (parsePorts (portsInput cfg))) 0) as [E|_].
      { destruct (parsePorts (portsInput cfg)); [congruence|discriminate]. }
      rewrite He. reflexivity. }
  eexists. split; [exact Hs|]. unfold failScan.
  cbn [progress results statusMessage isScanning cancelRequested queue
       scanPorts workers inFlight orphans].
  do 8 (split; [reflexivity|]).
  split; [apply awaitedIps_abort|].
  split.
  { unfold controllers. cbn [workers orphans]. rewrite controllers_aborted.
    reflexivity. }
  unfold controllers. intros [Hc _]%app_eq_nil. apply abortWorker_settled, Hc.
Qed.

Lemma handleScan_preflight_witness :
  handleScan smallScan initial = Some startedSmall
  /\ controllers startedSmall = [("10.0.0.1"%string, 80)]
  /\ exists s',
       handleScan (mkInputs "10.0.0.9" "10.0.0.1" "80" 4) startedSmall = Some s'
       /\ statusMessage s' = Some (Failed RangeInverted)
       /\ isScanning s' = false /\ cancelRequested s' = false
       /\ inFlight s' = false
       /\ progress s' = progress startedSmall /\ results s' = results startedSmall
       /\ queue s' = queue startedSmall
       /\ workers s' = map abortWorker (workers startedSmall)
       /\ awaitedIps (workers s') = awaitedIps (workers startedSmall)
       /\ controllers s' = []
       /\ (controllers startedSmall = [] -> workers s' = workers startedSmall).
Proof.
  split; [vm_compute; reflexivity|]. split; [reflexivity|].
  apply (handleScan_preflight (mkInputs "10.0.0.9" "10.0.0.1" "80" 4) startedSmall).
  right. split; [vm_compute; discriminate|vm_compute; reflexivity].
Defined.



(** X9.  A negative concurrency is found out only after the state has
    been reset: with ports and range accepted, [handleScan] fails with
    the array length error, and the previous results are gone and the
    progress reads 0 of the number of targets, though nothing was
    scanned. *)
Theorem handleScan_negative_concurrency
  (cfg : inputs) (s : state) (T : list string) :
  parsePorts (portsInput cfg) <> [] ->
  buildTargetList (startIp cfg) (endIp cfg) = Ok T ->
  concurrency cfg < 0 ->
  exists s',
    handleScan cfg s = Some s'
    /\ statusMessage s' = Some (Failed InvalidArrayLength)
    /\ results s' = []
    /\ progress s' = mkProgress 0 (Z.of_nat (length T))
    /\ isScanning s' = false /\ inFlight s' = false
    /\ workers s' = [].
Proof.
  intros Hp HT Hneg. unfold handleScan.
  destruct (Nat.eqb_spec (length (parsePorts (portsInput cfg))) 0) as [E|_].
  { destruct (parsePorts (portsInput cfg)); [congruence|discriminate]. }
  rewrite HT. pose proof (buildTargetList_length _ _ _ HT) as HlenT.
  destruct (Nat.eqb_spec (length T) 0) as [E|_]; [lia|].
  destruct (Z.ltb_spec (Z.min (concurrency cfg) (Z.of_nat (length T))) 0) as [_|H];
    [|lia].
  eexists. split; [reflexivity|]. cbn. repeat split.
Qed.

Lemma handleScan_negative_concurrency_witness :
  exists s',
    handleScan (mkInputs "10.0.0.1" "10.0.0.3" "80" (-1)) initial = Some s'
    /\ statusMessage s' = Some (Failed InvalidArrayLength)
    /\ results s' = []
    /\ progress s'
       = mkProgress 0 (Z.of_nat (length ["10.0.0.1"; "10.0.0.2"; "10.0.0.3"]%string))
    /\ isScanning s' = false /\ inFlight s' = false
    /\ workers s' = [].
Proof.
  apply (handleScan_negative_concurrency
           (mkInputs "10.0.0.1" "10.0.0.3" "80" (-1)) initial);
    [vm_compute; discriminate|vm_compute; reflexivity|reflexivity].
Defined.

End ScanStart.

(* ================================================================== *)
(** * The scan run: launch, order and shape *)
(* ================================================================== *)

Section ScanOrder.

(** X10.  A scan that starts launches min(concurrency, number of targets)
    workers; worker i holds the i-th target with one pending probe per
    parsed port, in the order of the ports, and the queue holds the
    remaining targets in their order. *)
Theorem handleScan_launch (cfg : inputs) (sp s0 : state) :
  handleScan cfg sp = Some s0 -> inFlight s0 = true ->
  exists T,
    buildTargetList (startIp cfg) (endIp cfg) = Ok T
    /\ workers s0
       = map (freshWorker (parsePorts (portsInput cfg))) (take (workerCount cfg T) T)
    /\ length (workers s0) = workerCount cfg T
    /\ Z.of_nat (workerCount cfg T)
       = Z.min (concurrency cfg) (Z.of_nat (length T))
    /\ queue s0 = drop (workerCount cfg T) T
    /\ scanPorts s0 = parsePorts (portsInput cfg)
    /\ results s0 = []
    /\ progress s0 = mkProgress 0 (Z.of_nat (length T))
    /\ statusMessage s0 = None /\ isScanning s0 = true.
Proof.
  intros Hstart Hfl.
  destruct (handleScan_initial cfg sp s0 Hstart Hfl)
    as (T & HT & Hne & Hp & Hc & HlenT & ->).
  exists T. cbn. split; [exact HT|]. split; [reflexivity|].
  split; [rewrite length_map, length_take; pose proof (workerCount_le cfg T); lia|].
  split; [unfold workerCount; lia|]. repeat split.
Qed.

Lemma handleScan_launch_witness :
  exists s0,
    handleScan fullScan initial = Some s0
    /\ exists T,
         buildTargetList (startIp fullScan) (endIp fullScan) = Ok T
         /\ workers s0
            = map (freshWorker (parsePorts (portsInput fullScan)))
                (take (workerCount fullScan T) T)
         /\ length (workers s0) = workerCount fullScan T
         /\ Z.of_nat (workerCount fullScan T)
            = Z.min (concurrency fullScan) (Z.of_nat (length T))
         /\ queue s0 = drop (workerCount fullScan T) T
         /\ scanPorts s0 = parsePorts (portsInput fullScan)
         /\ results s0 = []
         /\ progress s0 = mkProgress 0 (Z.of_nat (length T))
         /\ statusMessage s0 = None /\ isScanning s0 = true.
Proof.
  eexists. split; [vm_compute; reflexivity|].
  eapply (handleScan_launch fullScan initial); [vm_compute; reflexivity|reflexivity].
Defined.

(** X11.  Addresses leave the queue in their order: at every point of
    every run the queue is a tail of the target list, and the addresses
    before that tail are exactly those that have a result, had one that
    a click on the clear button removed, or are held by a worker; their
    number is the completed-host counter plus the number of hosts the
    workers hold. *)
Theorem queue_is_tail (cfg : inputs) (sp s0 s : state) (evs : list event) :
  handleScan cfg sp = Some s0 -> inFlight s0 = true ->
  exec evs s0 = Some s ->
  exists T k,
    buildTargetList (startIp cfg) (endIp cfg) = Ok T
    /\ queue s = drop k T
    /\ Permutation
         (cleared evs s0 ++ map ip (results s) ++ awaitedIps (workers s))
         (take k T)
    /\ (k <= length T)%nat
    /\ Z.of_nat k
       = current (progress s) + Z.of_nat (length (awaitedIps (workers s)))
    /\ (existsb isClear evs = false ->
        Permutation (map ip (results s) ++ awaitedIps (workers s)) (take k T)).
Proof.
  intros Hstart Hfl Hexec.
  destruct (scan_inv cfg sp s0 evs s Hstart Hfl Hexec)
    as (T & HT & Hne & Hcur & _ & (k & Hq & Hperm) & _).
  assert (H : exists k',
             (k' <= length T)%nat /\ queue s = drop k' T
             /\ Permutation
                  (cleared evs s0 ++ map ip (results s) ++ awaitedIps (workers s))
                  (take k' T)).
  { destruct (Nat.le_gt_cases k (length T)) as [Hk|Hk]; [exists k; auto|].
    exists (length T). split; [lia|].
    rewrite Hq, drop_ge by lia. rewrite take_ge in Hperm by lia.
    rewrite drop_ge, take_ge by lia. auto. }
  destruct H as (k' & Hk & Hq' & Hperm').
  exists T, k'. split; [exact HT|]. split; [exact Hq'|]. split; [exact Hperm'|].
  split; [exact Hk|]. split.
  - apply Permutation_length in Hperm'.
    rewrite !length_app, length_map, length_take in Hperm'. lia.
  - intros Hclear. rewrite (cleared_none evs s0 Hclear) in Hperm'. exact Hperm'.
Qed.

Lemma queue_is_tail_witness :
  exists s0 s,
    handleScan fullScan initial = Some s0
    /\ exec [Settle 0 0 (Fulfilled (123 # 10)); Deadline 0 1; Resume 0; Clear] s0
       = Some s
    /\ queue s = [] /\ results s = []
    /\ exists T k,
         buildTargetList (startIp fullScan) (endIp fullScan) = Ok T
         /\ queue s = drop k T
         /\ Permutation
              (cleared [Settle 0 0 (Fulfilled (123 # 10)); Deadline 0 1;
                        Resume 0; Clear] s0
               ++ map ip (results s) ++ awaitedIps (workers s))
              (take k T)
         /\ (k <= length T)%nat
         /\ Z.of_nat k
            = current (progress s) + Z.of_nat (length (awaitedIps (workers s)))
         /\ (existsb isClear [Settle 0 0 (Fulfilled (123 # 10)); Deadline 0 1;
                              Resume 0; Clear] = false ->
             Permutation (map ip (results s) ++ awaitedIps (workers s)) (take k T)).
Proof.
  eexists. eexists. split; [vm_compute; reflexivity|].
  split; [vm_compute; reflexivity|]. split; [reflexivity|]. split; [reflexivity|].
  eapply (queue_is_tail fullScan initial);
    [vm_compute; reflexivity|reflexivity|vm_compute; reflexivity].
Defined.

Lemma map_insert_same {A B} (f : A -> B) (l : list A) i x y :
  l !! i = Some x -> f y = f x -> map f (<[i := y]> l) = map f l.
Proof.
  revert i. induction l as [|a l IH]; intros [|i]; cbn; try discriminate.
  - intros [= ->] ->. reflexivity.
  - intros H Hf. f_equal. apply IH; assumption.
Qed.

Lemma allSettled_shape probes rs :
  allSettled probes = Some rs ->
  map port rs = map probePort probes
  /\ (Forall probeShape probes -> Forall resultShape rs).
Proof.
  revert rs. induction probes as [|[p|r] probes IH]; intros rs; cbn;
    [intros [= <-]; auto|discriminate|].
  destruct (allSettled probes) as [rs'|]; [|discriminate].
  intros [= <-]. destruct (IH rs' eq_refl) as [H1 H2]. cbn. split.
  - rewrite H1. reflexivity.
  - intros H. inversion H; subst. constructor; auto.
Qed.

Lemma failedHost_shape host P e : hostShape P (failedHost host P e).
Proof.
  destruct (failedHost_ports host P e) as [H1 H2]. split; [exact H1|].
  unfold failedHost in *. cbn [ports] in *.
  apply List.Forall_forall. intros r [p [<- _]]%in_map_iff.
  unfold resultShape. cbn. repeat split; auto; intros; congruence.
Qed.

Lemma freshWorker_shape P host : workerShape P (freshWorker P host).
Proof.
  unfold workerShape, freshWorker. split.
  - rewrite map_map. cbn. apply map_id.
  - apply List.Forall_forall. intros p [q [<- _]]%in_map_iff. exact I.
Qed.

Lemma nextTurn_shape c q P : workerShape P (fst (nextTurn c q P)).
Proof.
  unfold nextTurn. destruct (negb _ && negb c); [|exact I].
  destruct q as [|host rest]; [exact I|].
  destruct (isEmpty host); [exact I|apply (freshWorker_shape P host)].
Qed.

Lemma abortedResult_shape p : resultShape (abortedResult p).
Proof. unfold resultShape. cbn. repeat split; auto; intros; congruence. Qed.

Lemma abortWorker_shape P w : workerShape P w -> workerShape P (abortWorker w).
Proof.
  destruct w as [host probes|]; [|auto]. intros [H1 H2]. cbn. split.
  - rewrite map_map, <- H1. apply map_ext. intros [p|r]; reflexivity.
  - apply List.Forall_forall. intros p' [p [<- Hp]]%in_map_iff.
    rewrite List.Forall_forall in H2. destruct p as [p|r].
    + apply abortedResult_shape.
    + apply (H2 _ Hp).
Qed.

Lemma abortWorkers_shape P ws :
  Forall (workerShape P) ws -> Forall (workerShape P) (map abortWorker ws).
Proof.
  intros H. apply List.Forall_forall. intros w' [w [<- Hin]]%in_map_iff.
  rewrite List.Forall_forall in H. apply abortWorker_shape, H, Hin.
Qed.

Lemma shape_step P t a b : shapeInv P a -> stepKind a b t -> shapeInv P b.
Proof.
  intros (HP & Hws & Hrs)
    [w i host probes p o r Hw Hi Hr ->|w host probes rs Hw Hrs' ->
    |w host probes e strays Hw Hlen ->|k Hk ->|Hfl Hd ->| ->|Hres ->].
  - pose proof (Forall_lookup_1 _ _ _ _ Hws Hw) as [H1 H2].
    destruct (scanPort_returned host p o r Hr) as [Hport Hshape].
    split; [exact HP|]. split; [|exact Hrs]. fields.
    apply insert_Forall; [exact Hws|]. split.
    + rewrite <- H1. apply (map_insert_same probePort _ _ (Pending p)); [exact Hi|].
      exact Hport.
    + apply insert_Forall; [exact H2|]. exact Hshape.
  - pose proof (Forall_lookup_1 _ _ _ _ Hws Hw) as [H1 H2].
    split; [exact HP|]. fields. split.
    + apply insert_Forall; [exact Hws|]. rewrite HP. apply nextTurn_shape.
    + apply Forall_app. split; [exact Hrs|]. constructor; [|constructor].
      destruct (allSettled_shape _ _ Hrs') as [E1 E2].
      split; [cbn; rewrite E1; exact H1|apply E2, H2].
  - split; [exact HP|]. fields. split.
    + apply insert_Forall; [exact Hws|]. rewrite HP. apply nextTurn_shape.
    + apply Forall_app. split; [exact Hrs|]. constructor; [|constructor].
      rewrite HP. apply failedHost_shape.
  - split; [exact HP|]. split; assumption.
  - split; [exact HP|]. split; [|exact Hrs]. fields.
    apply abortWorkers_shape, Hws.
  - split; [exact HP|]. split; [|exact Hrs]. fields.
    apply abortWorkers_shape, Hws.
  - split; [exact HP|]. split; [exact Hws|constructor].
Qed.

Lemma shape_initial P l rest T :
  shapeInv P (mkState (mkProgress 0 T) [] None true false rest P
                (map (freshWorker P) l) true []).
Proof.
  split; [reflexivity|]. split; [|constructor]. cbn.
  apply List.Forall_forall. intros w [host [<- _]]%in_map_iff.
  apply freshWorker_shape.
Qed.

(** X12.  Every host result of a scan lists the parsed ports in their
    order, one port result per port, whatever the order in which the
    probes settled; each port result carries the protocol hint of its
    port, a latency exactly when it is [open] and a message exactly when
    it is [error]. *)
Theorem results_keep_port_order
  (cfg : inputs) (sp s0 s : state) (evs : list event) (h : HostResult) :
  handleScan cfg sp = Some s0 -> inFlight s0 = true ->
  exec evs s0 = Some s ->
  In h (results s) ->
  map port (ports h) = parsePorts (portsInput cfg)
  /\ length (ports h) = length (parsePorts (portsInput cfg))
  /\ forall r,
       In r (ports h) ->
       protocol r = protocolForPort (port r)
       /\ (latency r <> None <-> status r = open)
       /\ (errorMessage r <> None <-> status r = error).
Proof.
  intros Hstart Hfl Hexec Hin.
  destruct (handleScan_initial cfg sp s0 Hstart Hfl) as (T & _ & _ & _ & _ & _ & ->).
  pose proof (exec_invariant (shapeInv (parsePorts (portsInput cfg))) evs _ s
                (fun t => shape_step _ t) (shape_initial _ _ _ _) Hexec)
    as (_ & _ & Hrs).
  rewrite List.Forall_forall in Hrs. destruct (Hrs h Hin) as [H1 H2].
  split; [exact H1|]. split; [rewrite <- H1, length_map; reflexivity|].
  rewrite List.Forall_forall in H2. exact H2.
Qed.

Lemma results_keep_port_order_witness :
  exists s0 s h,
    handleScan fullScan initial = Some s0
    /\ exec fullRun s0 = Some s
    /\ In h (results s)
    /\ map port (ports h) = parsePorts (portsInput fullScan)
    /\ length (ports h) = length (parsePorts (portsInput fullScan))
    /\ forall r,
         In r (ports h) ->
         protocol r = protocolForPort (port r)
         /\ (latency r <> None <-> status r = open)
         /\ (errorMessage r <> None <-> status r = error).
Proof.
  eexists. eexists. eexists. split; [vm_compute; reflexivity|].
  split; [vm_compute; reflexivity|]. split; [right; right; left; reflexivity|].
  eapply (results_keep_port_order fullScan initial _ _ fullRun);
    [vm_compute; reflexivity|reflexivity|vm_compute; reflexivity
    |right; right; left; reflexivity].
Defined.

Lemma order_publish T g a w host probes h :
  allNonEmpty T -> orderInv T g a ->
  workers a !! w = Some (Awaiting host probes) -> ip h = host ->
  orderInv T g (publish w h a).
Proof.
  intros HT [Hlen Heq] Hw Hip.
  assert (Hqne : allNonEmpty (queue a)).
  { unfold allNonEmpty in *. rewrite <- Heq in HT.
    apply Forall_app in HT as [_ HT]. apply Forall_app in HT as [_ HT].
    apply Forall_app in HT as [_ HT]. exact HT. }
  pose proof (nextTurn_conserves (cancelRequested a) (queue a) (scanPorts a) Hqne)
    as Hturn.
  unfold orderInv. fields.
  remember (nextTurn (cancelRequested a) (queue a) (scanPorts a)) as turn.
  split; [rewrite length_insert; exact Hlen|].
  destruct (workers a) as [|x [|y ws]]; try discriminate.
  destruct w as [|w]; [|discriminate]. cbn in Hw. injection Hw as ->.
  rewrite map_app. cbn [map]. rewrite Hip.
  unfold awaitedIps in *. cbn [flat_map awaited list_insert insert] in Heq |- *.
  rewrite app_nil_r in *. cbn [app] in Heq.
  rewrite <- (app_assoc (map ip (results a))). cbn [app]. rewrite Hturn. exact Heq.
Qed.

Lemma order_step T t g a b :
  allNonEmpty T -> orderInv T g a -> stepKind a b t ->
  orderInv T (g ++ clearedAt t a) b.
Proof.
  intros HT Hinv
    [w i host probes p o r Hw Hi Hr ->|w host probes rs Hw Hrs ->
    |w host probes e strays Hw Hlen ->|k Hk ->|Hfl Hd ->| ->|Hres ->];
    cbn [clearedAt]; rewrite ?app_nil_r.
  - destruct Hinv as [Hlen Heq].
    split; fields; [rewrite length_insert; exact Hlen|].
    rewrite (awaitedIps_same_host _ _ _ _ _ Hw). exact Heq.
  - apply (order_publish T g a w host probes); auto.
  - exact (order_publish T g a w host probes
             (failedHost host (scanPorts a) e) HT Hinv Hw eq_refl).
  - exact Hinv.
  - destruct Hinv as [Hlen Heq].
    split; fields; [rewrite length_map; exact Hlen|].
    rewrite awaitedIps_abort. exact Heq.
  - destruct Hinv as [Hlen Heq].
    split; fields; [rewrite length_map; exact Hlen|].
    rewrite awaitedIps_abort. exact Heq.
  - destruct Hinv as [Hlen Heq].
    split; fields; [exact Hlen|].
    cbn [map app]. rewrite <- app_assoc. exact Heq.
Qed.

(** X13.  With a concurrency of 1 the hosts are scanned one after the
    other in the order of their addresses: at every point the addresses
    of the results that a click on the clear button has removed, then
    those of the results, then the host the worker holds, then the
    queue, are the target list in its order; so the results are
    consecutive addresses of the list, and its first addresses when
    nothing was cleared. *)
Theorem single_worker_order (cfg : inputs) (sp s0 s : state) (evs : list event) :
  concurrency cfg = 1 ->
  handleScan cfg sp = Some s0 -> inFlight s0 = true ->
  exec evs s0 = Some s ->
  exists T,
    buildTargetList (startIp cfg) (endIp cfg) = Ok T
    /\ cleared evs s0 ++ map ip (results s) ++ awaitedIps (workers s) ++ queue s
       = T
    /\ cleared evs s0 = take (length (cleared evs s0)) T
    /\ map ip (results s)
       = take (length (results s)) (drop (length (cleared evs s0)) T)
    /\ (length (awaitedIps (workers s)) <= 1)%nat
    /\ (existsb isClear evs = false ->
        map ip (results s) = take (length (results s)) T).
Proof.
  intros Hconc Hstart Hfl Hexec.
  destruct (handleScan_initial cfg sp s0 Hstart Hfl)
    as (T & HT & Hne & _ & _ & HlenT & Hs0).
  assert (Hn : workerCount cfg T = 1%nat) by (unfold workerCount; lia).
  rewrite Hn in Hs0.
  assert (H0 : orderInv T [] s0).
  { rewrite Hs0. split; cbn.
    - rewrite length_map, length_take. lia.
    - rewrite awaitedIps_fresh. apply take_drop. }
  pose proof (exec_ghost (orderInv T) evs [] s0 s
                (fun t g a b Ha Hk => order_step T t g a b Hne Ha Hk) H0 Hexec)
    as [Hlen Heq].
  cbn [app] in Heq.
  assert (Hres : map ip (results s)
                 = take (length (results s))
                     (drop (length (cleared evs s0)) T)).
  { rewrite <- Heq, drop_app_length.
    rewrite <- (length_map ip (results s)), take_app_length. reflexivity. }
  exists T. split; [exact HT|]. split; [exact Heq|]. split.
  { rewrite <- Heq, take_app_length. reflexivity. }
  split; [exact Hres|]. split.
  - destruct (workers s) as [|x [|y ws]]; try discriminate.
    destruct x; cbn; lia.
  - intros Hclear. rewrite (cleared_none evs s0 Hclear) in Hres.
    rewrite Hres at 1. rewrite drop_0. reflexivity.
Qed.

Lemma single_worker_order_witness :
  exists s0 s,
    handleScan (mkInputs "10.0.0.1" "10.0.0.3" "80" 1) initial = Some s0
    /\ exec [Deadline 0 0; Resume 0; Clear; Fault 0 (OtherValue None)] s0 = Some s
    /\ map ip (results s) = ["10.0.0.2"]%string
    /\ exists T,
         buildTargetList "10.0.0.1" "10.0.0.3" = Ok T
         /\ cleared [Deadline 0 0; Resume 0; Clear; Fault 0 (OtherValue None)] s0
            ++ map ip (results s) ++ awaitedIps (workers s) ++ queue s
            = T
         /\ cleared [Deadline 0 0; Resume 0; Clear; Fault 0 (OtherValue None)] s0
            = take (length (cleared [Deadline 0 0; Resume 0; Clear;
                                     Fault 0 (OtherValue None)] s0)) T
         /\ map ip (results s)
            = take (length (results s))
                (drop (length (cleared [Deadline 0 0; Resume 0; Clear;
                                        Fault 0 (OtherValue None)] s0)) T)
         /\ (length (awaitedIps (workers s)) <= 1)%nat
         /\ (existsb isClear [Deadline 0 0; Resume 0; Clear;
                              Fault 0 (OtherValue None)] = false ->
             map ip (results s) = take (length (results s)) T).
Proof.
  eexists. eexists. split; [vm_compute; reflexivity|].
  split; [vm_compute; reflexivity|]. split; [reflexivity|].
  eapply (single_worker_order (mkInputs "10.0.0.1" "10.0.0.3" "80" 1) initial);
    [reflexivity|vm_compute; reflexivity|reflexivity|vm_compute; reflexivity].
Defined.

Lemma pendingOf_bound host probes :
  (length (pendingOf host probes) <= length probes)%nat.
Proof. unfold pendingOf. induction probes as [|[p|r] probes IH]; cbn; lia. Qed.

Lemma controllers_length P s :
  Forall (workerShape P) (workers s) ->
  (length (controllers s) <= length (workers s) * length P + length (orphans s))%nat.
Proof.
  unfold controllers. rewrite length_app.
  induction 1 as [|w ws Hw Hws IH]; cbn [flat_map length]; [lia|].
  rewrite length_app.
  assert (Hone : (length match w with
                         | Awaiting ip0 probes => pendingOf ip0 probes
                         | Done => []
                         end <= length P)%nat).
  { destruct w as [host probes|]; [|cbn; lia].
    destruct Hw as [Hmap _]. rewrite <- Hmap, length_map.
    apply pendingOf_bound. }
  lia.
Qed.

Lemma count_step n t a b :
  length (workers a) = n -> stepKind a b t -> length (workers b) = n.
Proof.
  intros Hn [w i host probes p o r Hw Hi Hr ->|w host probes rs Hw Hrs ->
            |w host probes e strays Hw Hlen ->|k Hk ->|Hfl Hd ->| ->|Hres ->];
    fields; rewrite ?length_insert, ?length_map; exact Hn.
Qed.

Lemma orphans_step ev a b :
  fails ev = false -> orphans a = [] -> step ev a = Some b -> orphans b = [].
Proof.
  intros Hev Ha Hstep. pose proof (tagOf_fails ev Hev) as Ht.
  apply step_kind in Hstep.
  destruct Hstep as [w i host probes p o r Hw Hi Hr ->|w host probes rs Hw Hrs ->
                    |w host probes e strays Hw Hlen ->|k Hk ->|Hfl Hd ->| ->|Hres ->];
    try congruence; fields; try assumption; try reflexivity.
  rewrite Ha in Hk. cbn in Hk. lia.
Qed.

(** X14.  The concurrency bounds the hosts being scanned, at every point
    of every run: the number of workers stays min(concurrency, number of
    targets) and at most that many hosts are held at once.  The registry
    of controllers holds the probes in flight of those hosts, at most
    that many times the number of ports, and besides the orphans: the
    probes still in flight of hosts whose scan has failed.  In a run in
    which no host scan fails there are no orphans, and the registry
    holds at most concurrency times the number of ports. *)
Theorem concurrency_is_bounded (cfg : inputs) (sp s0 s : state) (evs : list event) :
  handleScan cfg sp = Some s0 -> inFlight s0 = true ->
  exec evs s0 = Some s ->
  exists T,
    buildTargetList (startIp cfg) (endIp cfg) = Ok T
    /\ Z.of_nat (length (workers s)) = Z.min (concurrency cfg) (Z.of_nat (length T))
    /\ Z.of_nat (length (awaitedIps (workers s))) <= concurrency cfg
    /\ Z.of_nat (length (controllers s))
       <= concurrency cfg * Z.of_nat (length (parsePorts (portsInput cfg)))
          + Z.of_nat (length (orphans s))
    /\ (existsb fails evs = false ->
        orphans s = []
        /\ Z.of_nat (length (controllers s))
           <= concurrency cfg * Z.of_nat (length (parsePorts (portsInput cfg)))).
Proof.
  intros Hstart Hfl Hexec.
  destruct (handleScan_initial cfg sp s0 Hstart Hfl)
    as (T & HT & Hne & _ & Hc & _ & ->).
  pose proof (exec_invariant (shapeInv (parsePorts (portsInput cfg))) evs _ s
                (fun t => shape_step _ t) (shape_initial _ _ _ _) Hexec)
    as (_ & Hws & _).
  match type of Hexec with
  | exec _ ?st = _ =>
      pose proof (exec_invariant (fun x => length (workers x) = workerCount cfg T)
                    evs st s (fun t => count_step _ t)) as Hcount;
      pose proof (fun Hev => exec_avoiding fails (fun x => orphans x = [])
                    evs st s orphans_step Hev eq_refl Hexec) as Horph
  end.
  cbn [workers] in Hcount. rewrite length_map, length_take in Hcount.
  specialize (Hcount ltac:(pose proof (workerCount_le cfg T); lia) Hexec).
  pose proof (awaitedIps_length (workers s)) as Ha.
  pose proof (controllers_length _ s Hws) as Hctl.
  assert (Hw : Z.of_nat (workerCount cfg T)
               = Z.min (concurrency cfg) (Z.of_nat (length T)))
    by (unfold workerCount; lia).
  exists T. split; [exact HT|]. split; [lia|]. split; [lia|].
  split; [nia|].
  intros Hev. specialize (Horph Hev). split; [exact Horph|].
  rewrite Horph in Hctl. cbn [length] in Hctl. nia.
Qed.

Lemma concurrency_is_bounded_witness :
  exists s0 s,
    handleScan faultyScan initial = Some s0
    /\ exec faultyRun s0 = Some s
    /\ length (controllers s) = 3%nat
    /\ orphans s = [("10.0.0.1"%string, 443)]
    /\ exists T,
         buildTargetList (startIp faultyScan) (endIp faultyScan) = Ok T
         /\ Z.of_nat (length (workers s))
            = Z.min (concurrency faultyScan) (Z.of_nat (length T))
         /\ Z.of_nat (length (awaitedIps (workers s))) <= concurrency faultyScan
         /\ Z.of_nat (length (controllers s))
            <= concurrency faultyScan
               * Z.of_nat (length (parsePorts (portsInput faultyScan)))
               + Z.of_nat (length (orphans s))
         /\ (existsb fails faultyRun = false ->
             orphans s = []
             /\ Z.of_nat (length (controllers s))
                <= concurrency faultyScan
                   * Z.of_nat (length (parsePorts (portsInput faultyScan)))).
Proof.
  eexists. eexists. split; [vm_compute; reflexivity|].
  split; [vm_compute; reflexivity|]. split; [reflexivity|]. split; [reflexivity|].
  eapply (concurrency_is_bounded faultyScan initial _ _ faultyRun);
    [vm_compute; reflexivity|reflexivity|vm_compute; reflexivity].
Defined.

Lemma cancel_publish q n g a w host probes h :
  cancelInv q n g a ->
  workers a !! w = Some (Awaiting host probes) ->
  cancelInv q n g (publish w h a).
Proof.
  intros (Hc & Hq & Hmsg & Hscan & Hn) Hw.
  destruct Hc as [Hc|[_ Hd]]; [|exfalso; eapply lookup_not_done; eauto].
  unfold cancelInv. fields. rewrite Hc, nextTurn_cancelled. cbn [fst snd].
  pose proof (awaitedIps_insert (workers a) w _ Done Hw) as P.
  apply Permutation_length in P. cbn in P.
  rewrite length_app. cbn [length].
  repeat split; auto. lia.
Qed.

Lemma cancel_step q n t g a b :
  cancelInv q n g a -> stepKind a b t -> cancelInv q n (g ++ clearedAt t a) b.
Proof.
  intros Hinv
    [w i host probes p o r Hw Hi Hr ->|w host probes rs Hw Hrs ->
    |w host probes e strays Hw Hlen ->|k Hk ->|Hfl Hd ->| ->|Hres ->];
    cbn [clearedAt]; rewrite ?app_nil_r.
  - destruct Hinv as (Hc & Hq & Hmsg & Hscan & Hn).
    unfold cancelInv. fields. rewrite (awaitedIps_same_host _ _ _ _ _ Hw).
    destruct Hc as [Hc|[_ Hd]];
      [auto 10|exfalso; eapply lookup_not_done; eauto].
  - eapply cancel_publish; eauto.
  - exact (cancel_publish q n g a w host probes
             (failedHost host (scanPorts a) e) Hinv Hw).
  - exact Hinv.
  - destruct Hinv as (Hc & Hq & Hmsg & Hscan & Hn).
    destruct Hc as [Hc|[Hfl' _]]; [|congruence].
    unfold cancelInv. fields. rewrite Hc, awaitedIps_abort, isDone_abort. auto 10.
  - destruct Hinv as (Hc & Hq & Hmsg & Hscan & Hn).
    unfold cancelInv. fields. rewrite awaitedIps_abort. auto 10.
  - destruct Hinv as (Hc & Hq & Hmsg & Hscan & Hn).
    unfold cancelInv. fields. rewrite length_app, length_map. cbn [length].
    repeat split; auto. lia.
Qed.

(** X15.  After a cancel no further address leaves the queue and the scan
    never reports completion: along every run that follows
    [handleCancel], through the end of the scan and beyond, the queue
    stays as it was, the status line reads [Interrupted], the scanning
    flag is down, and the only results still added are those of the
    hosts the workers held when the cancel came: the results, those a
    later click on the clear button has removed, and the hosts still
    held always number what results and held hosts numbered at the
    cancel. *)
Theorem cancel_stops_the_queue (s s' : state) (evs : list event) :
  exec evs (handleCancel s) = Some s' ->
  queue s' = queue s
  /\ statusMessage s' = Some Interrupted
  /\ isScanning s' = false
  /\ (length (cleared evs (handleCancel s))
      + length (results s') + length (awaitedIps (workers s'))
      = length (results s) + length (awaitedIps (workers s)))%nat
  /\ (existsb isClear evs = false ->
      (length (results s') + length (awaitedIps (workers s'))
       = length (results s) + length (awaitedIps (workers s)))%nat).
Proof.
  intros Hexec.
  assert (H0 : cancelInv (queue s)
                 (length (results s) + length (awaitedIps (workers s)))
                 [] (handleCancel s)).
  { unfold cancelInv. fields. rewrite awaitedIps_abort. cbn [length]. auto 10. }
  pose proof (exec_ghost _ evs [] _ s' (cancel_step _ _) H0 Hexec)
    as (_ & Hq & Hmsg & Hscan & Hn).
  cbn [app] in Hn.
  repeat (split; [assumption|]).
  intros Hclear. rewrite (cleared_none _ _ Hclear) in Hn. exact Hn.
Qed.

Lemma cancel_stops_the_queue_witness :
  exists s0 s',
    handleScan fullScan initial = Some s0
    /\ exec [Resume 0; Clear; Resume 1; Finish] (handleCancel s0) = Some s'
    /\ length (results s') = 1%nat
    /\ queue s' = queue s0
    /\ statusMessage s' = Some Interrupted
    /\ isScanning s' = false
    /\ (length (cleared [Resume 0; Clear; Resume 1; Finish] (handleCancel s0))
        + length (results s') + length (awaitedIps (workers s'))
        = length (results s0) + length (awaitedIps (workers s0)))%nat
    /\ (existsb isClear [Resume 0; Clear; Resume 1; Finish] = false ->
        (length (results s') + length (awaitedIps (workers s'))
         = length (results s0) + length (awaitedIps (workers s0)))%nat).
Proof.
  eexists. eexists. split; [vm_compute; reflexivity|].
  split; [vm_compute; reflexivity|]. split; [reflexivity|].
  apply (cancel_stops_the_queue _ _ [Resume 0; Clear; Resume 1; Finish]).
  vm_compute. reflexivity.
Defined.

Lemma calm_step ev a b :
  isCancel ev = false -> calmInv a -> step ev a = Some b -> calmInv b.
Proof.
  intros Hev [Hc Hphase] Hstep. pose proof (tagOf_cancel ev Hev) as Ht.
  apply step_kind in Hstep.
  destruct Hstep as [w i host probes p o r Hw Hi Hr ->|w host probes rs Hw Hrs ->
                    |w host probes e strays Hw Hlen ->|k Hk ->|Hfl Hd ->| ->|Hres ->];
    try congruence; try (split; assumption).
  split; [reflexivity|]. right. fields. rewrite Hc. auto.
Qed.

(** X16.  A scan that nobody cancels ends with the completion message:
    along a run without cancel the status line is empty and the scanning
    flag up while the scan is in flight, and once [handleScan] has run to
    its end the status line reads [Completed] and the flag is down. *)
Theorem uncancelled_scan_completes
  (cfg : inputs) (sp s0 s : state) (evs : list event) :
  handleScan cfg sp = Some s0 -> inFlight s0 = true ->
  existsb isCancel evs = false ->
  exec evs s0 = Some s ->
  cancelRequested s = false
  /\ (inFlight s = true -> isScanning s = true /\ statusMessage s = None)
  /\ (inFlight s = false ->
      isScanning s = false /\ statusMessage s = Some Completed).
Proof.
  intros Hstart Hfl Hev Hexec.
  destruct (handleScan_initial cfg sp s0 Hstart Hfl) as (T & _ & _ & _ & _ & _ & ->).
  assert (Hcalm : calmInv s).
  { eapply (exec_avoiding isCancel calmInv evs); [exact calm_step|exact Hev|
                                                   |exact Hexec].
    split; [reflexivity|]. left. auto. }
  destruct Hcalm as [Hc [(H1 & H2 & H3)|(H1 & H2 & H3)]];
    repeat split; auto; congruence.
Qed.

Lemma uncancelled_scan_completes_witness :
  exists s0 s,
    handleScan fullScan initial = Some s0
    /\ exec fullRun s0 = Some s
    /\ inFlight s = false
    /\ cancelRequested s = false
    /\ (inFlight s = true -> isScanning s = true /\ statusMessage s = None)
    /\ (inFlight s = false ->
        isScanning s = false /\ statusMessage s = Some Completed).
Proof.
  eexists. eexists. split; [vm_compute; reflexivity|].
  split; [vm_compute; reflexivity|]. split; [reflexivity|].
  eapply (uncancelled_scan_completes fullScan initial _ _ fullRun);
    [vm_compute; reflexivity|reflexivity|reflexivity|vm_compute; reflexivity].
Defined.

End ScanOrder.

(* ================================================================== *)
(** * Counts, labels and the controller registry *)
(* ================================================================== *)

Section Display.

Lemma open_not_allTimeout h : hasOpen h = true -> allTimeout h = false.
Proof.
  unfold hasOpen, allTimeout. induction (ports h) as [|r rs IH]; cbn;
    [discriminate|].
  unfold isOpen, isTimeout at 1.
  destruct (status r); cbn; auto.
Qed.

Lemma filter_disjoint_length {A} (f g : A -> bool) (l : list A) :
  (forall x, f x = true -> g x = false) ->
  (length (List.filter f l) + length (List.filter g l)
   = length (List.filter (fun x => f x || g x) l))%nat.
Proof.
  intros Hfg. induction l as [|x l IH]; cbn; [reflexivity|].
  destruct (f x) eqn:Hf; cbn.
  - rewrite (Hfg x Hf). cbn. lia.
  - destruct (g x); cbn; lia.
Qed.

Lemma filter_length_le {A} (f : A -> bool) (l : list A) :
  (length (List.filter f l) <= length l)%nat.
Proof. induction l as [|x l IH]; cbn; [lia|]. destruct (f x); cbn; lia. Qed.

Lemma filter_ext_Forall {A} (f g : A -> bool) (l : list A) :
  Forall (fun x => f x = g x) l -> List.filter f l = List.filter g l.
Proof.
  induction 1 as [|x l Hx Hl IH]; cbn; [reflexivity|]. rewrite Hx, IH. reflexivity.
Qed.

(** X17.  The counts above the table never count a host twice: a host
    with an open port is not a host all of whose ports timed out, so
    responsive + timed out <= total; and for the results of a scan the
    two counts add up to the number of hosts flagged [responded].  The
    total is the number of results shown: together with the results that
    clicks on the clear button have removed it is the completed-host
    counter, and it is the counter itself when nothing was cleared. *)
Theorem stats_agree_with_responded
  (cfg : inputs) (sp s0 s : state) (evs : list event) :
  handleScan cfg sp = Some s0 -> inFlight s0 = true ->
  exec evs s0 = Some s ->
  Z.of_nat (totalHosts (stats (results s))) + Z.of_nat (length (cleared evs s0))
  = current (progress s)
  /\ (existsb isClear evs = false ->
      Z.of_nat (totalHosts (stats (results s))) = current (progress s))
  /\ (responsive (stats (results s)) + timedOut (stats (results s))
      = length (List.filter responded (results s)))%nat
  /\ (responsive (stats (results s)) + timedOut (stats (results s))
      <= totalHosts (stats (results s)))%nat.
Proof.
  intros Hstart Hfl Hexec.
  destruct (scan_inv cfg sp s0 evs s Hstart Hfl Hexec)
    as (T & _ & _ & Hcur & _ & _ & _ & Hok & _).
  cbn [stats totalHosts responsive timedOut].
  rewrite (filter_disjoint_length hasOpen allTimeout _ open_not_allTimeout).
  split; [lia|].
  split.
  { intros Hclear. rewrite (cleared_none evs s0 Hclear) in Hcur.
    cbn [length] in Hcur. lia. }
  split; [|apply filter_length_le].
  f_equal. apply filter_ext_Forall.
  apply List.Forall_forall. intros h Hh.
  rewrite List.Forall_forall in Hok. symmetry. apply (Hok h Hh).
Qed.

Lemma stats_agree_with_responded_witness :
  exists s0 s,
    handleScan fullScan initial = Some s0
    /\ exec clearedRun s0 = Some s
    /\ stats (results s) = mkStats 2 0 0
    /\ progress s = mkProgress 3 3
    /\ Z.of_nat (totalHosts (stats (results s)))
       + Z.of_nat (length (cleared clearedRun s0))
       = current (progress s)
    /\ (existsb isClear clearedRun = false ->
        Z.of_nat (totalHosts (stats (results s))) = current (progress s))
    /\ (responsive (stats (results s)) + timedOut (stats (results s))
        = length (List.filter responded (results s)))%nat
    /\ (responsive (stats (results s)) + timedOut (stats (results s))
        <= totalHosts (stats (results s)))%nat.
Proof.
  eexists. eexists. split; [vm_compute; reflexivity|].
  split; [vm_compute; reflexivity|]. split; [reflexivity|]. split; [reflexivity|].
  eapply (stats_agree_with_responded fullScan initial _ _ clearedRun);
    [vm_compute; reflexivity|reflexivity|vm_compute; reflexivity].
Defined.

(** X18.  The label of a host in the table agrees with its [responded]
    flag: for every result of a scan the label is "Host ativo" exactly
    when a port is open, and it is the no-services label exactly when the
    host is not flagged [responded]. *)
Theorem hostStatus_agrees_with_responded
  (cfg : inputs) (sp s0 s : state) (evs : list event) (h : HostResult) :
  handleScan cfg sp = Some s0 -> inFlight s0 = true ->
  exec evs s0 = Some s ->
  In h (results s) ->
  (hostStatus h = "Host ativo"%string
   <-> exists r, In r (ports h) /\ status r = open)
  /\ (hostStatus h = noServices <-> responded h = false)
  /\ (hostStatus h = "Sem resposta"%string
      <-> responded h = true /\ forall r, In r (ports h) -> status r = timeout).
Proof.
  intros Hstart Hfl Hexec Hin.
  destruct (scan_inv cfg sp s0 evs s Hstart Hfl Hexec)
    as (T & _ & _ & _ & _ & _ & _ & Hok & _).
  rewrite List.Forall_forall in Hok. specialize (Hok h Hin).
  unfold respondedOk in Hok. unfold hostStatus. rewrite Hok.
  assert (Hopen : existsb isOpen (ports h) = true
                  <-> exists r, In r (ports h) /\ status r = open).
  { rewrite existsb_exists. unfold isOpen.
    split; intros (r & Hr & E); exists r; split; auto; apply statusEqb_eq, E. }
  assert (Htime : forallb isTimeout (ports h) = true
                  <-> forall r, In r (ports h) -> status r = timeout).
  { rewrite forallb_forall. unfold isTimeout.
    split; intros H r Hr; apply statusEqb_eq, H, Hr. }
  pose proof (open_not_allTimeout h) as Hdis. unfold hasOpen, allTimeout in Hdis.
  destruct (existsb isOpen (ports h)) eqn:Eo;
    [|destruct (forallb isTimeout (ports h)) eqn:Et]; cbn.
  - rewrite <- Hopen, <- Htime, (Hdis eq_refl).
    repeat split; auto; try discriminate; intros []; discriminate.
  - rewrite <- Hopen, <- Htime.
    repeat split; auto; try discriminate; intros []; discriminate.
  - rewrite <- Hopen, <- Htime.
    repeat split; auto; try discriminate; intros []; discriminate.
Qed.

Lemma hostStatus_agrees_with_responded_witness :
  exists s0 s h,
    handleScan fullScan initial = Some s0
    /\ exec fullRun s0 = Some s
    /\ In h (results s)
    /\ hostStatus h = noServices
    /\ (hostStatus h = "Host ativo"%string
        <-> exists r, In r (ports h) /\ status r = open)
    /\ (hostStatus h = noServices <-> responded h = false)
    /\ (hostStatus h = "Sem resposta"%string
        <-> responded h = true
            /\ forall r, In r (ports h) -> status r = timeout).
Proof.
  eexists. eexists. eexists. split; [vm_compute; reflexivity|].
  split; [vm_compute; reflexivity|]. split; [right; left; reflexivity|].
  split; [reflexivity|].
  eapply (hostStatus_agrees_with_responded fullScan initial _ _ fullRun);
    [vm_compute; reflexivity|reflexivity|vm_compute; reflexivity
    |right; left; reflexivity].
Defined.

(** X19.  Registering a controller and calling the function it returns
    takes exactly that controller out of the registry again: whatever has
    been registered or removed in between, the others stay, in their
    order; a second call, or a call after a cancel has emptied the
    registry, changes nothing. *)
Theorem registerController_unregister (controller : nat) (registry : list nat) :
  let registered := fst (registerController controller registry) in
  let unregister := snd (registerController controller registry) in
  In controller registered
  /\ (forall current x,
        In x (unregister current) <-> In x current /\ x <> controller)
  /\ (forall current, unregister (unregister current) = unregister current)
  /\ unregister [] = []
  /\ (forall others,
        ~ In controller registry -> ~ In controller others ->
        unregister (registered ++ others) = registry ++ others).
Proof.
  cbn [registerController fst snd].
  assert (Hkeep : forall l, ~ In controller l ->
            List.filter (fun item => negb (Nat.eqb item controller)) l = l).
  { induction l as [|x l IH]; cbn; [reflexivity|]. intros H.
    destruct (Nat.eqb_spec x controller) as [->|_]; cbn; [tauto|].
    rewrite IH; [reflexivity|tauto]. }
  split; [apply in_app_iff; right; left; reflexivity|].
  split.
  { intros current x. rewrite filter_In, negb_true_iff, Nat.eqb_neq. tauto. }
  split.
  { intros current. apply Hkeep. rewrite filter_In, negb_true_iff, Nat.eqb_neq. tauto. }
  split; [reflexivity|].
  intros others Hreg Hothers.
  rewrite !List.filter_app, (Hkeep _ Hreg), (Hkeep _ Hothers). cbn.
  rewrite Nat.eqb_refl. cbn. rewrite app_nil_r. reflexivity.
Qed.

End Display.

(* ================================================================== *)
(** * A scan without workers; the fields of a CSV row *)
(* ================================================================== *)

Section Edges.

(** X20.  A concurrency of 0, which is what [Number] makes of a cleared
    concurrency field, starts a scan without workers: every target stays
    in the queue, no probe can settle, and [handleScan] runs straight to
    its end, reporting completion with 0 hosts counted and no result. *)
Theorem zero_concurrency_scans_nothing
  (cfg : inputs) (sp : state) (T : list string) :
  parsePorts (portsInput cfg) <> [] ->
  buildTargetList (startIp cfg) (endIp cfg) = Ok T ->
  concurrency cfg = 0 ->
  Number EmptyString = Some (Num 0)
  /\ exists s0 s1,
       handleScan cfg sp = Some s0
       /\ inFlight s0 = true /\ workers s0 = [] /\ queue s0 = T
       /\ (forall ev s', step ev s0 = Some s' -> ev = Cancel \/ ev = Finish)
       /\ step Finish s0 = Some s1
       /\ statusMessage s1 = Some Completed /\ isScanning s1 = false
       /\ progress s1 = mkProgress 0 (Z.of_nat (length T))
       /\ results s1 = [].
Proof.
  intros Hp HT Hc. split; [reflexivity|]. unfold handleScan.
  destruct (Nat.eqb_spec (length (parsePorts (portsInput cfg))) 0) as [E|_].
  { destruct (parsePorts (portsInput cfg)); [congruence|discriminate]. }
  rewrite HT. pose proof (buildTargetList_length _ _ _ HT) as HlenT.
  destruct (Nat.eqb_spec (length T) 0) as [E|_]; [lia|].
  rewrite Hc. replace (Z.min 0 (Z.of_nat (length T))) with 0 by lia.
  cbn [Z.ltb Z.compare Z.to_nat launch].
  eexists. eexists. split; [reflexivity|]. cbn.
  repeat split; auto.
  intros ev s'. destruct ev as [w i o|w i|w|w e|k| | |]; cbn; auto;
    unfold settle; cbn; rewrite ?lookup_nil; discriminate.
Qed.

Lemma zero_concurrency_scans_nothing_witness :
  Number EmptyString = Some (Num 0)
  /\ exists s0 s1,
       handleScan (mkInputs "10.0.0.1" "10.0.0.3" "80" 0) initial = Some s0
       /\ inFlight s0 = true /\ workers s0 = []
       /\ queue s0 = ["10.0.0.1"; "10.0.0.2"; "10.0.0.3"]%string
       /\ (forall ev s', step ev s0 = Some s' -> ev = Cancel \/ ev = Finish)
       /\ step Finish s0 = Some s1
       /\ statusMessage s1 = Some Completed /\ isScanning s1 = false
       /\ progress s1
          = mkProgress 0 (Z.of_nat (length ["10.0.0.1"; "10.0.0.2"; "10.0.0.3"]%string))
       /\ results s1 = [].
Proof.
  apply (zero_concurrency_scans_nothing
           (mkInputs "10.0.0.1" "10.0.0.3" "80" 0) initial);
    [vm_compute; discriminate|vm_compute; reflexivity|reflexivity].
Defined.

Lemma countChar_append c a b :
  countChar c (a +:+ b) = (countChar c a + countChar c b)%nat.
Proof.
  induction a as [|x a IH]; cbn [String.append countChar]; [reflexivity|].
  rewrite IH. lia.
Qed.

Lemma countChar_free c s : Str.all (isNot c) s = true -> countChar c s = 0%nat.
Proof.
  induction s as [|x s IH]; cbn [Str.all countChar]; [reflexivity|].
  unfold isNot at 1. intros [Hx Hs]%andb_prop. apply negb_true_iff in Hx.
  rewrite Hx, (IH Hs). reflexivity.
Qed.

Lemma countChar_collapse b m :
  countChar ","%char (collapseLineBreaks b m) = countChar ","%char m.
Proof.
  revert b. induction m as [|x m IH]; intros b; cbn [collapseLineBreaks];
    [reflexivity|].
  destruct (isLineBreak x) eqn:Hx.
  - assert (Hc : Ascii.eqb x ","%char = false).
    { unfold isLineBreak in Hx.
      destruct (Ascii.eqb_spec x ","%char) as [->|]; [discriminate|reflexivity]. }
    destruct b; cbn [countChar]; rewrite Hc, IH; reflexivity.
  - cbn [countChar]. rewrite IH. reflexivity.
Qed.

(** X21.  A CSV row is written without quoting: split at commas, the row
    of a port result has six fields plus one more for every comma in the
    host address and in the error message, so it has exactly the six
    columns of the header only when neither holds a comma. *)
Theorem csvLine_fields (h : HostResult) (p : PortResult) :
  length (split ","%char (csvLine h p))
  = (6 + countChar ","%char (ip h)
     + countChar ","%char
         (match errorMessage p with Some m => m | None => EmptyString end))%nat
  /\ length (split ","%char header) = 6%nat.
Proof.
  split; [|reflexivity].
  rewrite split_length, csvLine_rowOf. unfold rowOf. cbn [join].
  rewrite !countChar_append. cbn [countChar Ascii.eqb Bool.eqb].
  rewrite (countChar_free ","%char (toString (port p)))
    by (apply toString_free; reflexivity).
  assert (H1 : countChar ","%char
                 match protocol p with http => "HTTP" | https => "HTTPS" end%string
               = 0%nat) by (destruct (protocol p); reflexivity).
  assert (H2 : countChar ","%char
                 match status p with
                 | open => "OPEN" | closed => "CLOSED"
                 | timeout => "TIMEOUT" | error => "ERROR"
                 end%string = 0%nat) by (destruct (status p); reflexivity).
  assert (H3 : countChar ","%char
                 match latency p with
                 | Some l => toString l | None => EmptyString
                 end = 0%nat).
  { destruct (latency p); [|reflexivity].
    apply countChar_free, toString_free. reflexivity. }
  assert (H4 : countChar ","%char
                 match errorMessage p with
                 | Some m => collapseLineBreaks false m | None => EmptyString
                 end
               = countChar ","%char
                   match errorMessage p with Some m => m | None => EmptyString end).
  { destruct (errorMessage p); [apply countChar_collapse|reflexivity]. }
  rewrite H1, H2, H3, H4. lia.
Qed.

End Edges.
